(** * Label-format conversion and instance pairing of the lir package

    A shallow embedding of [liar/util.py] and [lir/transformers.py].
    NumPy arrays are lists (a matrix is a list of rows together with its
    column count, a general array is a shape with row-major data), Python
    exceptions are an error type, and the ambient random generator used by
    the pairing engine is an explicit state threaded through the calls.
    [int64] cells are integers with the wrap-around written out, and
    [float64] cells are the primitive binary64 floats with their IEEE 754
    specification. *)

From Stdlib Require Import List ZArith Lia Bool Arith PeanoNat Permutation Finite.
From Stdlib Require Import Floats.PrimFloat.
From Stdlib Require Floats.FloatAxioms.
Import ListNotations.

Set Implicit Arguments.

(** ** Python exceptions and fallible computations *)

Module Py.

Inductive exn : Type :=
| AssertionError
| IndexError
| ValueError
| OverflowError.

Inductive result (A : Type) : Type :=
| Ok (a : A)
| Raise (e : exn).

Arguments Ok {A} a.
Arguments Raise {A} e.

Definition bind {A B : Type} (c : result A) (k : A -> result B) : result B :=
  match c with
  | Ok a => k a
  | Raise e => Raise e
  end.

(** [assert b] of Python: nothing happens when [b] holds. *)
Definition assert (b : bool) : result unit :=
  if b then Ok tt else Raise AssertionError.

Fixpoint mapM {A B : Type} (f : A -> result B) (l : list A) : result (list B) :=
  match l with
  | [] => Ok []
  | a :: l' =>
      bind (f a) (fun b => bind (mapM f l') (fun bs => Ok (b :: bs)))
  end.

(** [enumerate(l)]: every element with its position, as a Python int. *)
Definition enumerate {A : Type} (l : list A) : list (Z * A) :=
  combine (map Z.of_nat (seq 0 (length l))) l.

End Py.

Import Py.

Declare Scope py_scope.
Delimit Scope py_scope with py.
Notation "x <- c ;; k" := (Py.bind c (fun x => k))
  (at level 61, c at next level, right associativity) : py_scope.
Notation "c ;;; k" := (Py.bind c (fun _ => k))
  (at level 61, right associativity) : py_scope.
Open Scope py_scope.

(** ** The NumPy operations the two files use *)

Module Np.

(** A 2-axis array of shape [(length rows, ncols)]. *)
Record matrix (A : Type) : Type := Matrix {
  ncols : nat;
  rows : list (list A)
}.

Definition nrows {A : Type} (X : matrix A) : nat := length (rows X).

Definition rectangular {A : Type} (X : matrix A) : Prop :=
  Forall (fun r => length r = ncols X) (rows X).

(** [np.concatenate] on 2-axis arrays (along axis 0): it needs at least one
    array and all of them must agree on the other axis. *)
Definition concatenate {A : Type} (Xn : list (matrix A)) : result (matrix A) :=
  match Xn with
  | [] => Raise ValueError
  | X0 :: rest =>
      if forallb (fun X => ncols X =? ncols X0) rest
      then Ok (Matrix (ncols X0) (concat (map (@rows A) Xn)))
      else Raise ValueError
  end.

(** [np.concatenate] on 1-axis arrays. *)
Definition concatenate1 {A : Type} (ys : list (list A)) : result (list A) :=
  match ys with
  | [] => Raise ValueError
  | _ => Ok (concat ys)
  end.

Definition int8_min : Z := -128.
Definition int8_max : Z := 127.

(** How NumPy types the product of an array and a Python int. Up to
    NumPy 1 the value of the int is looked at and the result is widened to
    an integer type that holds it (value-based casting); since NumPy 2 the
    array's dtype is kept and the int is converted to it (NEP 50). *)
Inductive casting : Type :=
| ValueBased
| Weak.

(** [np.ones((n,), dtype=np.int8) * i] for a Python int [i]. Under [Weak]
    casting the conversion of [i] to [int8] raises when [i] is out of
    range. *)
Definition ones_int8_times (numpy : casting) (n : nat) (i : Z)
  : result (list Z) :=
  match numpy with
  | ValueBased => Ok (repeat (1 * i)%Z n)
  | Weak =>
      if (int8_min <=? i)%Z && (i <=? int8_max)%Z
      then Ok (repeat (1 * i)%Z n)
      else Raise OverflowError
  end.

(** [np.unique]: the distinct values, sorted ascending. *)
Fixpoint insert_uniq (v : Z) (l : list Z) : list Z :=
  match l with
  | [] => [v]
  | h :: t =>
      if (v <? h)%Z then v :: l
      else if (v =? h)%Z then l
      else h :: insert_uniq v t
  end.

Definition unique (y : list Z) : list Z := fold_right insert_uniq [] y.

(** Rows of [l] at which the mask is true. *)
Fixpoint select {A : Type} (l : list A) (mask : list bool) : list A :=
  match l, mask with
  | a :: l', b :: mask' => if b then a :: select l' mask' else select l' mask'
  | _, _ => []
  end.

(** [X[mask]] with a boolean mask over axis 0. *)
Definition bool_index {A : Type} (X : matrix A) (mask : list bool)
  : result (matrix A) :=
  if length mask =? nrows X
  then Ok (Matrix (ncols X) (select (rows X) mask))
  else Raise IndexError.

End Np.

Import Np.

(** ** liar/util.py *)

Module Util.

Section Conversion.
Context {A : Type}.

(** [numpy] is the casting of the NumPy that runs the code. *)
Definition Xn_to_Xy (numpy : casting) (Xn : list (matrix A))
  : result (matrix A * list Z) :=
  X <- concatenate Xn ;;
  ys <- mapM (fun iX => ones_int8_times numpy (nrows (snd iX)) (fst iX))
             (enumerate Xn) ;;
  y <- concatenate1 ys ;;
  Ok (X, y).

Definition Xy_to_Xn (X : matrix A) (y : list Z) : result (list (matrix A)) :=
  (* y.reshape(-1, 1) has shape (len(y), 1) *)
  let y_shape := (length y, 1) in
  assert (nrows X =? fst y_shape) ;;;
  assert (snd y_shape =? 1) ;;;
  let y_uniq := unique y in
  assert (length y_uniq =? 2) ;;;
  mapM (fun yvalue => bool_index X (map (fun v => (v =? yvalue)%Z) y)) y_uniq.

End Conversion.

End Util.

Import Util.

(** ** General arrays and element types *)

Module Nd.

(** An array of any number of axes: its shape and its cells in row-major
    (C) order. *)
Record ndarray (A : Type) : Type := NdArray {
  shape : list nat;
  data : list A
}.

Definition size_of (sh : list nat) : nat := fold_right Nat.mul 1 sh.

Definition well_shaped {A : Type} (X : ndarray A) : Prop :=
  length (data X) = size_of (shape X).

(** The arithmetic of an element type (a NumPy dtype). *)
Class Dtype (A : Type) : Type := {
  dsub : A -> A -> A;
  dabs : A -> A
}.

Definition wrap64 (z : Z) : Z :=
  ((z + 2 ^ 63) mod 2 ^ 64 - 2 ^ 63)%Z.

#[export] Instance int64 : Dtype Z := {
  dsub := fun a b => wrap64 (a - b);
  dabs := fun a => wrap64 (Z.abs a)
}.

(** IEEE 754 binary64, the dtype of the feature arrays. *)
#[export] Instance float64 : Dtype PrimFloat.float := {
  dsub := PrimFloat.sub;
  dabs := PrimFloat.abs
}.

Definition zip_with {A B C : Type} (f : A -> B -> C) (l : list A) (l' : list B)
  : list C :=
  map (fun ab => f (fst ab) (snd ab)) (combine l l').

(** [y[idx]] with an integer index array. *)
Definition take {A : Type} (l : list A) (idx : list nat) : result (list A) :=
  mapM (fun i => match nth_error l i with
                 | Some v => Ok v
                 | None => Raise IndexError
                 end) idx.

(** [X[:, :, c]] on an array of 3 axes. *)
Definition slice_last {A : Type} (X : ndarray A) (c : nat)
  : result (ndarray A) :=
  match shape X with
  | [m; f; d] =>
      if c <? d
      then cells <- take (data X) (map (fun k => k * d + c) (seq 0 (m * f))) ;;
           Ok (NdArray [m; f] cells)
      else Raise IndexError
  | _ => Raise IndexError
  end.

(** [np.stack([X0, X1], axis=2)] of two matrices of one shape. *)
Definition stack2 {A : Type} (X0 X1 : matrix A) : result (ndarray A) :=
  if (nrows X0 =? nrows X1) && (ncols X0 =? ncols X1)
  then Ok (NdArray [nrows X0; ncols X0; 2]
             (concat (zip_with
                        (fun r0 r1 => concat (zip_with (fun a b => [a; b]) r0 r1))
                        (rows X0) (rows X1))))
  else Raise ValueError.

(** [np.where(mask)[0]]: the positions at which the mask is true. *)
Definition where_ (mask : list bool) : list nat :=
  map fst (filter snd (combine (seq 0 (length mask)) mask)).

Definition arange (n : nat) : list nat := seq 0 n.

(** [np.meshgrid(x, y)]: two arrays of shape [(len y, len x)]. *)
Definition meshgrid (x y : list nat) : list (list nat) * list (list nat) :=
  (repeat x (length y), map (fun v => repeat v (length x)) y).

(** [A.T] on 3 axes of sizes [d0, d1, d2]: the axes are reversed. *)
Definition transpose3 (d0 d1 d2 : nat) (A : list (list (list nat)))
  : list (list (list nat)) :=
  map (fun a =>
         map (fun b =>
                map (fun c => nth a (nth b (nth c A []) []) 0) (seq 0 d0))
             (seq 0 d1))
      (seq 0 d2).

(** [.reshape(-1, 2)] of an array whose last axis already has size 2. *)
Definition reshape_pairs (A : list (list (list nat))) : list (nat * nat) :=
  map (fun r => (nth 0 r 0, nth 1 r 0)) (concat A).

End Nd.

Import Nd.

(** ** The random generator *)

Module Random.

(** The state of [np.random] and its [permutation(n)], which returns the
    numbers below [n] in some order. *)
Record source : Type := Source {
  state : Type;
  permutation : state -> nat -> list nat * state;
  permutation_perm :
    forall s n, Permutation (fst (permutation s n)) (seq 0 n)
}.

(** A generator whose permutations are the identity. *)
Definition identity_source : source :=
  @Source unit (fun s n => (seq 0 n, s)) (fun _ n => Permutation_refl _).

(** A generator whose permutations reverse the order. *)
Definition reversing_source : source :=
  @Source unit (fun s n => (rev (seq 0 n), s))
          (fun _ n => Permutation_sym (Permutation_rev (seq 0 n))).

(** Computations that use the generator and may raise. *)
Definition Rand (R : source) (A : Type) : Type :=
  state R -> result (A * state R).

Definition ret {R : source} {A : Type} (a : A) : Rand R A :=
  fun s => Ok (a, s).

Definition bind {R : source} {A B : Type} (c : Rand R A) (k : A -> Rand R B)
  : Rand R B :=
  fun s => match c s with
           | Ok (a, s') => k a s'
           | Raise e => Raise e
           end.

Definition lift {R : source} {A : Type} (c : result A) : Rand R A :=
  fun s => match c with
           | Ok a => Ok (a, s)
           | Raise e => Raise e
           end.

(** [np.random.choice(a, size, replace=False)]: the cells of [a] at the
    first [size] positions of a random permutation. *)
Definition choice {R : source} (a : list nat) (size : Z) : Rand R (list nat) :=
  fun s =>
    if (size <? 0)%Z then Raise ValueError
    else if (Z.of_nat (length a) <? size)%Z then Raise ValueError
    else
      let ps := permutation R s (length a) in
      match take a (firstn (Z.to_nat size) (fst ps)) with
      | Ok r => Ok (r, snd ps)
      | Raise e => Raise e
      end.

End Random.

Declare Scope rand_scope.
Delimit Scope rand_scope with rand.
Notation "x <~ c ;; k" := (Random.bind c (fun x => k))
  (at level 61, c at next level, right associativity) : rand_scope.

(** ** lir/transformers.py *)

Module AbsDiffTransformer.

Section Transform.
Context {A : Type} `{Dtype A}.

Definition transform (X : ndarray A) : result (ndarray A) :=
  assert (length (shape X) =? 3) ;;;
  assert (nth 2 (shape X) 0 =? 2) ;;;
  X0 <- slice_last X 0 ;;
  X1 <- slice_last X 1 ;;
  Ok (NdArray (shape X0) (map dabs (zip_with dsub (data X0) (data X1)))).

End Transform.

End AbsDiffTransformer.

Module InstancePairing.

Inductive ds_limit_t : Type :=
| DsNone
| DsBalanced
| DsInt (k : Z).

(** The engine: its two limits, and the [pairing] attribute that
    [transform] sets. *)
Record t : Type := Make {
  _ss_limit : option Z;
  _ds_limit : ds_limit_t;
  pairing : option (list (nat * nat))
}.

Definition init (same_source_limit : option Z)
  (different_source_limit : ds_limit_t) : t :=
  Make same_source_limit different_source_limit None.

(** All index pairs, as line 84 computes them. *)
Definition all_pairs (n : nat) : list (nat * nat) :=
  let g := meshgrid (arange n) (arange n) in
  reshape_pairs (transpose3 2 n n [fst g; snd g]).

Section Transform.
Context {R : Random.source} {A : Type}.
Open Scope rand_scope.

(** The new engine (with its [pairing] set) comes first in the result; the
    labels [1.0] and [0.0] of [np.ones] and [np.zeros] are the integers 1
    and 0. *)
Definition transform (self : t) (X : matrix A) (y : list Z)
  : Random.Rand R (t * (ndarray A * list Z)) :=
  let pairing := all_pairs (nrows X) in
  let col0 := map fst pairing in
  let col1 := map snd pairing in
  y0 <~ Random.lift (take y col0) ;;
  y1 <~ Random.lift (take y col1) ;;
  let same_source := zip_with Z.eqb y0 y1 in
  let ordered := zip_with Nat.ltb col0 col1 in
  let rows_same := where_ (zip_with andb ordered same_source) in
  rows_same <~
    match _ss_limit self with
    | Some l =>
        if (l <? Z.of_nat (length rows_same))%Z
        then Random.choice rows_same l
        else Random.ret rows_same
    | None => Random.ret rows_same
    end ;;
  let rows_diff := where_ (zip_with andb ordered (map negb same_source)) in
  let ds_limit :=
    match _ds_limit self with
    | DsNone => Z.of_nat (length rows_diff)
    | DsBalanced => Z.of_nat (length rows_same)
    | DsInt l => l
    end in
  rows_diff <~
    (if (ds_limit <? Z.of_nat (length rows_diff))%Z
     then Random.choice rows_diff ds_limit
     else Random.ret rows_diff) ;;
  same_part <~ Random.lift (take pairing rows_same) ;;
  diff_part <~ Random.lift (take pairing rows_diff) ;;
  let pairing := same_part ++ diff_part in
  let self := Make (_ss_limit self) (_ds_limit self) (Some pairing) in
  X0 <~ Random.lift (take (rows X) (map fst pairing)) ;;
  X1 <~ Random.lift (take (rows X) (map snd pairing)) ;;
  X' <~ Random.lift (stack2 (Matrix (ncols X) X0) (Matrix (ncols X) X1)) ;;
  let y' := repeat 1%Z (length rows_same) ++ repeat 0%Z (length rows_diff) in
  Random.ret (self, (X', y')).

End Transform.

End InstancePairing.

(** ** Columns, reductions and broadcasting *)

Module Axes.

(** Column [j] of a list of rows, and [X.T] of a matrix. *)
Definition column {A : Type} (rs : list (list A)) (j : nat) : list A :=
  flat_map (fun r => match nth_error r j with
                     | Some v => [v]
                     | None => []
                     end) rs.

Definition columns {A : Type} (X : matrix A) : list (list A) :=
  map (column (rows X)) (seq 0 (ncols X)).

Definition transpose {A : Type} (X : matrix A) : matrix A :=
  Matrix (nrows X) (columns X).

(** The rows of a 2-axis array of shape [(n, f)] stored in row-major order. *)
Definition chunks {A : Type} (n f : nat) (cells : list A) : list (list A) :=
  map (fun i => firstn f (skipn (i * f) cells)) (seq 0 n).

(** The common length of last axes under NumPy's broadcasting: a length of
    1 stretches to any other, different lengths otherwise do not go
    together. *)
Definition broadcast_width (lengths : list nat) : result nat :=
  fold_left (fun acc l =>
               w <- acc ;;
               if l =? 1 then Ok w
               else if w =? 1 then Ok l
               else if l =? w then Ok w
               else Raise ValueError)
            lengths (Ok 1).

Definition broadcast {A : Type} (w : nat) (l : list A) : list A :=
  if length l =? w then l
  else match l with
       | [v] => repeat v w
       | _ => l
       end.

(** Reductions and division of an element type: [np.sum] over one row,
    and [/]. *)
Class Division (A : Type) : Type := {
  dsum : list A -> A;
  ddiv : A -> A -> A
}.

(** What the CDF transformer needs: [np.mean] and [np.std] over one
    column, the test [> 0], and SciPy's [norm.cdf(x, loc, scale)] on
    scalars, which is taken as given. *)
Class Gaussian (A : Type) : Type := {
  mean : list A -> A;
  std : list A -> A;
  positive : A -> bool;
  norm_cdf : A -> A -> A -> A
}.

Fixpoint float_of_nat (n : nat) : PrimFloat.float :=
  match n with
  | 0 => 0%float
  | S k => PrimFloat.add (float_of_nat k) 1%float
  end.

(** Doubles added one after the other onto [init]. *)
Definition add_all (init : PrimFloat.float) (l : list PrimFloat.float)
  : PrimFloat.float :=
  fold_left PrimFloat.add l init.

(** NumPy's sum of 8 to 128 doubles that lie next to each other in memory
    (the unrolled branch of [DOUBLE_pairwise_sum]): eight running sums take
    the cells of every full block of 8 and are then added in pairs, and the
    cells after the last full block are added one by one. *)
Definition block_sum (l : list PrimFloat.float) : PrimFloat.float :=
  let n := length l in
  let full := n - n mod 8 in
  let r := fold_left (zip_with PrimFloat.add)
                     (chunks (full / 8 - 1) 8 (skipn 8 l)) (firstn 8 l) in
  match r with
  | [r0; r1; r2; r3; r4; r5; r6; r7] =>
      add_all (((r0 + r1) + (r2 + r3)) + ((r4 + r5) + (r6 + r7)))%float
              (skipn full l)
  | _ => add_all PrimFloat.neg_zero l
  end.

(** NumPy's pairwise summation of doubles that lie next to each other:
    fewer than 8 are added from left to right, starting from [-0.0]; up to
    128 go through [block_sum]; more are split in two, the first part
    being half of them rounded down to a multiple of 8. [fuel] bounds the
    depth of the splitting; the length of the list is enough. *)
Fixpoint pairwise_sum (fuel : nat) (l : list PrimFloat.float)
  : PrimFloat.float :=
  let n := length l in
  if n <? 8 then add_all PrimFloat.neg_zero l
  else if n <=? 128 then block_sum l
  else match fuel with
       | 0 => block_sum l
       | S fuel' =>
           let n2 := n / 2 - (n / 2) mod 8 in
           PrimFloat.add (pairwise_sum fuel' (firstn n2 l))
                         (pairwise_sum fuel' (skipn n2 l))
       end.

(** [np.sum] over doubles that lie next to each other (a row of a
    C-contiguous matrix, or the only column of a matrix of one column): the
    pairwise sum is added to the initial value [-0.0]; an empty sum is
    [0.0]. *)
Definition float_sum (l : list PrimFloat.float) : PrimFloat.float :=
  match l with
  | [] => 0%float
  | _ => PrimFloat.add PrimFloat.neg_zero (pairwise_sum (length l) l)
  end.

(** [np.sum(X, axis=0)] for one column of a C-contiguous matrix. With more
    than one column NumPy adds the rows one after the other onto the
    initial [-0.0]; the only column of a matrix of one column is summed as
    [float_sum] does. *)
Definition float_column_sum (single_column : bool) (l : list PrimFloat.float)
  : PrimFloat.float :=
  if single_column then float_sum l
  else match l with
       | [] => 0%float
       | _ => add_all PrimFloat.neg_zero l
       end.

(** [np.mean(X, axis=0)] and [np.std(X, axis=0)] for one column: the sum
    divided by the count, and the square root of the mean of the squared
    deviations from the mean. *)
Definition float_mean (single_column : bool) (l : list PrimFloat.float)
  : PrimFloat.float :=
  PrimFloat.div (float_column_sum single_column l) (float_of_nat (length l)).

Definition float_std (single_column : bool) (l : list PrimFloat.float)
  : PrimFloat.float :=
  let m := float_mean single_column l in
  let dev := map (fun x => PrimFloat.sub x m) l in
  PrimFloat.sqrt (float_mean single_column (map (fun d => PrimFloat.mul d d) dev)).

#[export] Instance float64_division : Division PrimFloat.float := {
  dsum := float_sum;
  ddiv := PrimFloat.div
}.

(** The column statistics of doubles, for a population matrix of one
    column ([single_column]) or of more, around a function [cdf] in the
    place of SciPy's [norm.cdf]. *)
Definition float64_stats (single_column : bool)
  (cdf : PrimFloat.float -> PrimFloat.float -> PrimFloat.float -> PrimFloat.float)
  : Gaussian PrimFloat.float := {|
  mean := float_mean single_column;
  std := float_std single_column;
  positive := fun s => PrimFloat.ltb 0%float s;
  norm_cdf := cdf
|}.

(** Doubles with the standardised value [(x - loc) / scale], the argument
    that SciPy hands to its CDF kernel, in the place of the CDF. It serves
    to run the transformer on examples. *)
Definition float64_standardised (single_column : bool)
  : Gaussian PrimFloat.float :=
  float64_stats single_column
    (fun x loc scale => PrimFloat.div (PrimFloat.sub x loc) scale).

(** A function of three levels in the place of the CDF: 0.5 at [loc], 0.25
    below it and 0.75 elsewhere. It has the two properties the
    specification gives for [norm.cdf] and serves to run the transformer
    on examples. *)
Definition three_level_cdf (x loc scale : PrimFloat.float) : PrimFloat.float :=
  if PrimFloat.Leibniz.eqb x loc then 0.5%float
  else if PrimFloat.ltb x loc then 0.25%float
  else 0.75%float.

Definition float64_three_level (single_column : bool)
  : Gaussian PrimFloat.float :=
  float64_stats single_column three_level_cdf.

End Axes.

Import Axes.

Module VectorNormalizer.

Section Transform.
Context {A : Type} `{Division A}.

Definition transform (X : matrix A) : matrix A :=
  let sums := map dsum (rows X) in
  let XT := transpose X in
  let quotient :=
    Matrix (ncols XT) (map (fun r => zip_with ddiv r sums) (rows XT)) in
  transpose quotient.

End Transform.

End VectorNormalizer.

Module GaussianCdfTransformer.

(** The fitted attributes. *)
Record t (A : Type) : Type := Make {
  _mean : list A;
  _std : list A;
  _valid_features : list bool
}.

Section Transform.
Context {A : Type} `{Gaussian A}.

Definition fit (X : matrix A) : t A :=
  let mean0 := map mean (columns X) in
  let std0 := map std (columns X) in
  let valid_features := map positive std0 in
  Make (select mean0 valid_features) (select std0 valid_features)
       valid_features.

Definition transform (self : t A) (X : ndarray A) : result (ndarray A) :=
  assert (length (shape X) =? 2) ;;;
  let n := nth 0 (shape X) 0 in
  let f := nth 1 (shape X) 0 in
  (* X[:, self._valid_features] *)
  if length (_valid_features self) =? f then
    let kept_rows :=
      map (fun r => select r (_valid_features self)) (chunks n f (data X)) in
    let k := length (where_ (_valid_features self)) in
    w <- broadcast_width [k; length (_mean self); length (_std self)] ;;
    Ok (NdArray [n; w]
          (concat
             (map (fun r =>
                     zip_with (fun xm s => norm_cdf (fst xm) (snd xm) s)
                       (combine (broadcast w r) (broadcast w (_mean self)))
                       (broadcast w (_std self)))
                  kept_rows)))
  else Raise IndexError.

End Transform.

End GaussianCdfTransformer.

(** ** Vocabulary of the properties *)

(** Strictly ascending lists. *)
Fixpoint ascending (l : list Z) : Prop :=
  match l with
  | [] => True
  | h :: t => match t with
              | [] => True
              | h' :: _ => (h < h')%Z
              end /\ ascending t
  end.

(** The number of distinct values of a label vector. *)
Definition distinct_values (y : list Z) : nat := length (nodup Z.eq_dec y).

(** The rows of [X] whose label is [v], top to bottom. *)
Definition rows_with {A : Type} (X : matrix A) (y : list Z) (v : Z)
  : list (list A) :=
  map fst (filter (fun ry => (snd ry =? v)%Z) (combine (rows X) y)).

(** The two failures of [Xy_to_Xn] are errors of two different kinds. *)
Definition distinct_error_kinds : Prop :=
  exists e_shape e_value : exn,
    e_shape <> e_value /\
    (forall (X : matrix Z) (y : list Z),
        nrows X <> length y -> Xy_to_Xn X y = Raise e_shape) /\
    (forall (X : matrix Z) (y : list Z),
        nrows X = length y -> distinct_values y <> 2 ->
        Xy_to_Xn X y = Raise e_value).

(** Converting two groups to the flat format and back gives two groups
    with the rows of the original ones. *)
Definition round_trip {A : Type} (numpy : casting) (G0 G1 : matrix A) : Prop :=
  exists X y G0' G1',
    Xn_to_Xy numpy [G0; G1] = Ok (X, y) /\
    Xy_to_Xn X y = Ok [G0'; G1'] /\
    Permutation (rows G0') (rows G0) /\
    Permutation (rows G1') (rows G1).

(** The number of rows in the groups before group [g]. *)
Definition offset {A : Type} (Xn : list (matrix A)) (g : nat) : nat :=
  list_sum (map (@nrows A) (firstn g Xn)).

(** [Xn_to_Xy] returns [X] and [y] such that [X] is the row-wise
    concatenation of the groups, with their column count, [y] has one label
    per row of [X], every row of every group is in [X] at its place with the
    index of its group as its label, and every label of [y] is the index of
    the group that the row at its place comes from. *)
Definition labelled_by_group {A : Type} (numpy : casting) (Xn : list (matrix A))
  : Prop :=
  exists X y,
    Xn_to_Xy numpy Xn = Ok (X, y) /\
    rows X = concat (map (@rows A) Xn) /\
    (forall G, In G Xn -> ncols X = ncols G) /\
    length y = nrows X /\
    (forall g G r row,
        nth_error Xn g = Some G ->
        nth_error (rows G) r = Some row ->
        nth_error (rows X) (offset Xn g + r) = Some row /\
        nth_error y (offset Xn g + r) = Some (Z.of_nat g)) /\
    (forall p label,
        nth_error y p = Some label ->
        exists g G r,
          nth_error Xn g = Some G /\
          r < nrows G /\
          p = offset Xn g + r /\
          label = Z.of_nat g).

(** The labels of the groups of [Xn], group after group. *)
Definition group_labels {A : Type} (Xn : list (matrix A)) : list (list Z) :=
  map (fun iX => repeat (fst iX) (nrows (snd iX))) (enumerate Xn).

(** The cell [X[i, j, c]] of an array of 3 axes and the cell [Y[i, j]] of
    an array of 2 axes. *)
Definition cell3 {A : Type} (X : ndarray A) (i j c : nat) : option A :=
  match shape X with
  | [m; f; d] =>
      if (i <? m) && (j <? f) && (c <? d)
      then nth_error (data X) ((i * f + j) * d + c)
      else None
  | _ => None
  end.

Definition cell2 {A : Type} (Y : ndarray A) (i j : nat) : option A :=
  match shape Y with
  | [m; f] =>
      if (i <? m) && (j <? f) then nth_error (data Y) (i * f + j) else None
  | _ => None
  end.

(** The label of row [i], the pairs of rows with one label, and the pairs
    in canonical order. *)
Definition label_at (y : list Z) (i : nat) : Z := nth i y 0%Z.

Definition same_source (y : list Z) (p : nat * nat) : bool :=
  (label_at y (fst p) =? label_at y (snd p))%Z.

Definition canonical (p : nat * nat) : bool := fst p <? snd p.

(** All pairs of row indices below [n], first index outermost. *)
Definition grid (n : nat) : list (nat * nat) := list_prod (seq 0 n) (seq 0 n).

(** The pairs that [transform] can keep, before any sampling. *)
Definition same_candidates (y : list Z) (n : nat) : list (nat * nat) :=
  filter (fun p => canonical p && same_source y p) (grid n).

Definition diff_candidates (y : list Z) (n : nat) : list (nat * nat) :=
  filter (fun p => canonical p && negb (same_source y p)) (grid n).

(** [sel] holds the cells of [cand] at pairwise different positions. *)
Definition picked {B : Type} (cand sel : list B) : Prop :=
  exists idx, NoDup idx /\ take cand idx = Ok sel.

(** What a limit leaves of the candidates: all of them, or as many as the
    limit says when there are more. *)
Definition kept {B : Type} (limit : option Z) (cand sel : list B) : Prop :=
  match limit with
  | Some l =>
      if (l <? Z.of_nat (length cand))%Z
      then picked cand sel /\ Z.of_nat (length sel) = l
      else sel = cand
  | None => sel = cand
  end.

(** The limits under which [transform] can sample: none of them is
    negative. *)
Definition limits_ok (self : InstancePairing.t) : Prop :=
  match InstancePairing._ss_limit self with
  | Some l => (0 <= l)%Z
  | None => True
  end /\
  match InstancePairing._ds_limit self with
  | InstancePairing.DsInt l => (0 <= l)%Z
  | _ => True
  end.

(** The limit on the different-source pairs once [kept_same] same-source
    pairs are kept. *)
Definition effective_ds_limit (self : InstancePairing.t) (kept_same : nat)
  : option Z :=
  match InstancePairing._ds_limit self with
  | InstancePairing.DsNone => None
  | InstancePairing.DsBalanced => Some (Z.of_nat kept_same)
  | InstancePairing.DsInt l => Some l
  end.

(** The number of pairs of a set of [n] members. *)
Definition choose2 (n : nat) : nat := n * (n - 1) / 2.

(** For every label, the later labels that are ([c] the identity) or are
    not ([c] the negation) equal to it. *)
Fixpoint later_matches (c : bool -> bool) (y : list Z) : nat :=
  match y with
  | [] => 0
  | h :: t => length (filter (fun v => c (h =? v)%Z) t) + later_matches c t
  end.

(** What [transform] returns: the pairing table it leaves in the engine and
    the labels of the pairs. *)
Definition table_of {A : Type} (out : InstancePairing.t * (ndarray A * list Z))
  : list (nat * nat) :=
  match InstancePairing.pairing (fst out) with
  | Some t => t
  | None => []
  end.

Definition labels_of {A : Type} (out : InstancePairing.t * (ndarray A * list Z))
  : list Z :=
  snd (snd out).

Definition count_same {A : Type} (out : InstancePairing.t * (ndarray A * list Z))
  : nat :=
  count_occ Z.eq_dec (labels_of out) 1%Z.

Definition count_diff {A : Type} (out : InstancePairing.t * (ndarray A * list Z))
  : nat :=
  count_occ Z.eq_dec (labels_of out) 0%Z.

(** Every row of a pairing table is in ascending order and no two rows hold
    the same unordered pair. *)
Definition canonical_table (t : list (nat * nat)) : Prop :=
  (forall k i j, nth_error t k = Some (i, j) -> i < j) /\
  (forall k k' i j i' j',
      k <> k' ->
      nth_error t k = Some (i, j) -> nth_error t k' = Some (i', j') ->
      ~ ((i = i' /\ j = j') \/ (i = j' /\ j = i'))).

(** In balanced mode as many different-source pairs are returned as
    same-source pairs. *)
Definition balanced_pairs_equal {R : Random.source} {A : Type}
  (self : InstancePairing.t) (X : matrix A) (y : list Z) (s : Random.state R)
  : Prop :=
  exists out s',
    InstancePairing.transform self X y s = Ok (out, s') /\
    count_diff out = count_same out.

Definition mx (l : list (list Z)) : matrix Z :=
  Matrix (match l with r :: _ => length r | [] => 0 end) l.

(** The cell [X[i, c]] of a matrix. *)
Definition cell {A : Type} (X : matrix A) (i c : nat) : option A :=
  match nth_error (rows X) i with
  | Some r => nth_error r c
  | None => None
  end.

(** The paired array that [transform] returns. *)
Definition paired_of {A : Type} (out : InstancePairing.t * (ndarray A * list Z))
  : ndarray A :=
  fst (snd out).

(** The two sampling steps of [transform], as it runs them. *)
Definition same_step {R : Random.source} (self : InstancePairing.t)
  (y : list Z) (n : nat) : Random.Rand R (list nat) :=
  match InstancePairing._ss_limit self with
  | Some l =>
      if (l <? Z.of_nat (length (where_ (map (fun p => canonical p && same_source y p) (grid n)))))%Z
      then Random.choice (where_ (map (fun p => canonical p && same_source y p) (grid n))) l
      else Random.ret (where_ (map (fun p => canonical p && same_source y p) (grid n)))
  | None => Random.ret (where_ (map (fun p => canonical p && same_source y p) (grid n)))
  end.

Definition diff_step {R : Random.source} (self : InstancePairing.t)
  (y : list Z) (n : nat) (rows_same : list nat) : Random.Rand R (list nat) :=
  if (match InstancePairing._ds_limit self with
      | InstancePairing.DsNone =>
          Z.of_nat (length (where_ (map (fun p => canonical p && negb (same_source y p)) (grid n))))
      | InstancePairing.DsBalanced => Z.of_nat (length rows_same)
      | InstancePairing.DsInt l => l
      end
      <? Z.of_nat (length (where_ (map (fun p => canonical p && negb (same_source y p)) (grid n)))))%Z
  then Random.choice (where_ (map (fun p => canonical p && negb (same_source y p)) (grid n)))
         (match InstancePairing._ds_limit self with
          | InstancePairing.DsNone =>
              Z.of_nat (length (where_ (map (fun p => canonical p && negb (same_source y p)) (grid n))))
          | InstancePairing.DsBalanced => Z.of_nat (length rows_same)
          | InstancePairing.DsInt l => l
          end)
  else Random.ret (where_ (map (fun p => canonical p && negb (same_source y p)) (grid n))).

(** Interleaving two rows, and the cells of two lists of rows stacked along
    a new last axis. *)
Definition stacked {A : Type} (X0 X1 : list (list A)) : list A :=
  concat (zip_with (fun r0 r1 => concat (zip_with (fun a b => [a; b]) r0 r1))
                   X0 X1).

(** No limit of the engine is exceeded by the candidates, so that
    [transform] does not sample. *)
Definition within_limits (self : InstancePairing.t) (y : list Z) (n : nat)
  : Prop :=
  match InstancePairing._ss_limit self with
  | Some l => (Z.of_nat (length (same_candidates y n)) <= l)%Z
  | None => True
  end /\
  match InstancePairing._ds_limit self with
  | InstancePairing.DsNone => True
  | InstancePairing.DsBalanced =>
      length (diff_candidates y n) <= length (same_candidates y n)
  | InstancePairing.DsInt l => (Z.of_nat (length (diff_candidates y n)) <= l)%Z
  end.

(** The largest [int64]. *)
Definition int64_max : Z := (2 ^ 63 - 1)%Z.

(** On an array of [int64] cells the reducer returns, in every cell, the
    absolute difference of the two members as a number. *)
Definition exact_abs_diff (X : ndarray Z) : Prop :=
  exists Y,
    @AbsDiffTransformer.transform Z int64 X = Ok Y /\
    forall i j a b,
      cell3 X i j 0 = Some a -> cell3 X i j 1 = Some b ->
      cell2 Y i j = Some (Z.abs (a - b)).



(** The double next to 0.1, which the literal [0.1] of Python denotes. *)
Definition one_tenth : PrimFloat.float := 0x1.999999999999ap-4%float.

(** * Properties *)

Example Xn_to_Xy_scenario (numpy : casting) :
  Xn_to_Xy numpy [mx [[1;2];[3;4]]; mx [[10;20]]]%Z
  = Ok (mx [[1;2];[3;4];[10;20]]%Z, [0;0;1]%Z).
Proof. destruct numpy; reflexivity. Qed.

Example Xy_to_Xn_scenario :
  Xy_to_Xn (mx [[1;2];[3;4];[10;20]]%Z) [0;0;1]%Z
  = Ok [mx [[1;2];[3;4]]; mx [[10;20]]]%Z.
Proof. reflexivity. Qed.

(** ** Facts about [unique] *)

Section UniqueFacts.

Lemma insert_uniq_In (v w : Z) (l : list Z) :
  In w (insert_uniq v l) <-> w = v \/ In w l.
Proof.
  induction l as [|h t IH]; simpl.
  - intuition congruence.
  - destruct (Z.ltb_spec v h); [simpl; intuition congruence|].
    destruct (Z.eqb_spec v h); simpl.
    + subst. intuition congruence.
    + rewrite IH. intuition congruence.
Qed.

Lemma unique_In (v : Z) (y : list Z) : In v (unique y) <-> In v y.
Proof.
  induction y as [|h t IH]; simpl; [tauto|].
  rewrite insert_uniq_In, IH. intuition congruence.
Qed.

Lemma insert_uniq_ascending (v : Z) (l : list Z) :
  ascending l -> ascending (insert_uniq v l).
Proof.
  induction l as [|h t IH]; simpl; [tauto|].
  intros [Hh Ht].
  destruct (Z.ltb_spec v h); [simpl; tauto|].
  destruct (Z.eqb_spec v h); [simpl; tauto|].
  specialize (IH Ht). split; [|exact IH].
  destruct t as [|h' t']; simpl in *; [lia|].
  destruct (Z.ltb_spec v h'); [lia|].
  destruct (Z.eqb_spec v h'); lia.
Qed.

Lemma unique_ascending (y : list Z) : ascending (unique y).
Proof.
  induction y as [|h t IH]; simpl; [exact I|].
  now apply insert_uniq_ascending.
Qed.

Lemma ascending_lower_bound (h : Z) (t : list Z) :
  ascending (h :: t) -> forall w, In w t -> (h < w)%Z.
Proof.
  revert h. induction t as [|h' t IH]; intros h Hasc w Hin; [contradiction|].
  destruct Hasc as [Hlt Ht]. destruct Hin as [<-|Hin]; [exact Hlt|].
  specialize (IH h' Ht w Hin). lia.
Qed.

Lemma ascending_NoDup (l : list Z) : ascending l -> NoDup l.
Proof.
  induction l as [|h t IH]; intros Hasc; constructor.
  - intros Hin. pose proof (ascending_lower_bound Hasc _ Hin). lia.
  - apply IH. simpl in Hasc. tauto.
Qed.

(** [len(np.unique(y))] is the number of distinct values of [y]. *)
Lemma unique_length (y : list Z) :
  length (unique y) = length (nodup Z.eq_dec y).
Proof.
  apply Permutation_length, NoDup_Permutation.
  - apply ascending_NoDup, unique_ascending.
  - apply NoDup_nodup.
  - intros v. rewrite unique_In, nodup_In. tauto.
Qed.

(** An ascending list whose members are [lo] and [hi] is [[lo; hi]]. *)
Lemma ascending_two (lo hi : Z) (l : list Z) :
  (lo < hi)%Z -> ascending l ->
  (forall v, In v l <-> v = lo \/ v = hi) ->
  l = [lo; hi].
Proof.
  intros Hlt Hasc Hmem.
  destruct l as [|a l]; [exfalso; apply (Hmem lo); auto|].
  assert (Ha : a = lo).
  { destruct (proj1 (Hmem a) (or_introl eq_refl)) as [E|E]; [exact E|].
    assert (Hlo : In lo (a :: l)) by (apply Hmem; auto).
    destruct Hlo as [E'|Hin]; [congruence|].
    pose proof (ascending_lower_bound Hasc _ Hin). lia. }
  subst a.
  assert (Hl : forall v, In v l <-> v = hi).
  { intros v. split.
    - intros Hin. pose proof (ascending_lower_bound Hasc _ Hin).
      destruct (proj1 (Hmem v) (or_intror Hin)); [lia|assumption].
    - intros ->. destruct (proj2 (Hmem hi) (or_intror eq_refl)); [lia|assumption]. }
  destruct l as [|b l]; [exfalso; apply (Hl hi); reflexivity|].
  assert (Hb : b = hi) by (apply Hl; left; reflexivity). subst b.
  destruct l as [|c l]; [reflexivity|].
  exfalso. assert (Hc : c = hi) by (apply Hl; right; left; reflexivity).
  simpl in Hasc. lia.
Qed.

Lemma unique_two (lo hi : Z) (y : list Z) :
  (lo < hi)%Z -> (forall v, In v y <-> v = lo \/ v = hi) ->
  unique y = [lo; hi].
Proof.
  intros Hlt Hmem. apply ascending_two; [exact Hlt|apply unique_ascending|].
  intros v. rewrite unique_In. apply Hmem.
Qed.

Lemma unique_two_inv (lo hi : Z) (y : list Z) :
  unique y = [lo; hi] ->
  (lo < hi)%Z /\ (forall v, In v y <-> v = lo \/ v = hi).
Proof.
  intros E. split.
  - pose proof (unique_ascending y) as Hasc. rewrite E in Hasc. simpl in Hasc. tauto.
  - intros v. rewrite <- unique_In, E. simpl. intuition congruence.
Qed.

End UniqueFacts.

(** ** [Xy_to_Xn] *)

Section FlatToGrouped.
Context {A : Type}.

Lemma select_rows_with (X : matrix A) (y : list Z) (v : Z) :
  select (rows X) (map (fun w => (w =? v)%Z) y) = rows_with X y v.
Proof.
  unfold rows_with. generalize (rows X) as l. induction y as [|w y IH]; intros l.
  - destruct l; reflexivity.
  - destruct l as [|r l]; [reflexivity|]. simpl.
    destruct (w =? v)%Z; simpl; now rewrite IH.
Qed.

Lemma Xy_to_Xn_shape_error (X : matrix A) (y : list Z) :
  nrows X <> length y -> Xy_to_Xn X y = Raise AssertionError.
Proof.
  intros Hne. unfold Xy_to_Xn. simpl.
  destruct (Nat.eqb_spec (nrows X) (length y)); [contradiction|reflexivity].
Qed.

Lemma Xy_to_Xn_value_error (X : matrix A) (y : list Z) :
  nrows X = length y -> distinct_values y <> 2 ->
  Xy_to_Xn X y = Raise AssertionError.
Proof.
  intros He Hne. unfold Xy_to_Xn, distinct_values in *. simpl.
  rewrite He, Nat.eqb_refl. simpl. rewrite unique_length.
  destruct (Nat.eqb_spec (length (nodup Z.eq_dec y)) 2); [contradiction|reflexivity].
Qed.

Lemma Xy_to_Xn_two (X : matrix A) (y : list Z) (lo hi : Z) :
  nrows X = length y -> unique y = [lo; hi] ->
  Xy_to_Xn X y
  = Ok [Matrix (ncols X) (rows_with X y lo); Matrix (ncols X) (rows_with X y hi)].
Proof.
  intros He Hu. unfold Xy_to_Xn. simpl.
  rewrite He, Nat.eqb_refl, Hu. simpl.
  unfold bool_index. rewrite !length_map, <- He, Nat.eqb_refl. simpl.
  now rewrite !select_rows_with.
Qed.

Lemma Xy_to_Xn_sorted_pair (X : matrix A) (y : list Z) (lo hi : Z) :
  nrows X = length y ->
  (lo < hi)%Z ->
  (forall v, In v y <-> v = lo \/ v = hi) ->
  Xy_to_Xn X y
  = Ok [Matrix (ncols X) (rows_with X y lo); Matrix (ncols X) (rows_with X y hi)].
Proof.
  intros He Hlt Hmem. apply Xy_to_Xn_two; [exact He|].
  now apply unique_two.
Qed.

Lemma length_two_inv (l : list Z) : length l = 2 -> exists a b, l = [a; b].
Proof.
  destruct l as [|a [|b [|c l]]]; simpl; try discriminate. eauto.
Qed.

End FlatToGrouped.

(** C3 (as the code has it): [Xy_to_Xn] fails with an AssertionError when
    the row counts of X and y differ, fails with an AssertionError as well
    (the same kind of error) when the row counts agree and y does not have
    exactly two distinct values, and returns its groups otherwise. *)
Theorem Xy_to_Xn_failures (A : Type) (X : matrix A) (y : list Z) :
  (nrows X <> length y -> Xy_to_Xn X y = Raise AssertionError) /\
  (nrows X = length y -> distinct_values y <> 2 ->
   Xy_to_Xn X y = Raise AssertionError) /\
  (nrows X = length y -> distinct_values y = 2 ->
   exists Xn, Xy_to_Xn X y = Ok Xn).
Proof.
  split; [apply Xy_to_Xn_shape_error|].
  split; [apply Xy_to_Xn_value_error|].
  intros He Hd. unfold distinct_values in Hd. rewrite <- unique_length in Hd.
  destruct (length_two_inv _ Hd) as (lo & hi & Hu).
  eexists. eapply Xy_to_Xn_two; eassumption.
Qed.

Lemma Xy_to_Xn_failures_witness :
  Xy_to_Xn (mx [[1]; [2]]%Z) [0]%Z = Raise AssertionError /\
  Xy_to_Xn (mx [[1]; [2]; [3]]%Z) [0; 1; 2]%Z = Raise AssertionError /\
  exists Xn, Xy_to_Xn (mx [[1]; [2]; [3]]%Z) [7; 4; 7]%Z = Ok Xn.
Proof.
  split; [|split].
  - apply (proj1 (Xy_to_Xn_failures (mx [[1]; [2]]%Z) [0]%Z)).
    vm_compute. lia.
  - apply (proj1 (proj2 (Xy_to_Xn_failures (mx [[1]; [2]; [3]]%Z) [0; 1; 2]%Z))).
    + reflexivity.
    + vm_compute. lia.
  - apply (proj2 (proj2 (Xy_to_Xn_failures (mx [[1]; [2]; [3]]%Z) [7; 4; 7]%Z))).
    + reflexivity.
    + reflexivity.
Defined.

(** C3 as stated fails: the two failures are not of different kinds. *)
Lemma distinct_error_kinds_counterexample : ~ distinct_error_kinds.
Proof.
  intros (e1 & e2 & Hne & Hshape & Hvalue).
  specialize (Hshape (mx [[1]; [2]]%Z) [0]%Z).
  specialize (Hvalue (mx [[1]; [2]; [3]]%Z) [0; 1; 2]%Z).
  vm_compute in Hshape, Hvalue.
  assert (E1 : Raise AssertionError = @Raise (list (matrix Z)) e1) by (apply Hshape; lia).
  assert (E2 : Raise AssertionError = @Raise (list (matrix Z)) e2)
    by (apply Hvalue; [reflexivity|lia]).
  congruence.
Qed.

(** C10: for a label vector as long as X whose distinct values are
    [lo < hi], [Xy_to_Xn] returns two matrices: the rows of X labelled
    [lo], then the rows labelled [hi], each in the order they have in X. *)
Theorem Xy_to_Xn_keeps_order (A : Type) (X : matrix A) (y : list Z) (lo hi : Z) :
  nrows X = length y ->
  (lo < hi)%Z ->
  (forall v, In v y <-> v = lo \/ v = hi) ->
  Xy_to_Xn X y
  = Ok [Matrix (ncols X) (rows_with X y lo); Matrix (ncols X) (rows_with X y hi)].
Proof.
  intros He Hlt Hmem. now apply Xy_to_Xn_sorted_pair.
Qed.

Lemma Xy_to_Xn_keeps_order_witness :
  Xy_to_Xn (mx [[1]; [2]; [3]; [4]]%Z) [7; 4; 7; 4]%Z
  = Ok [mx [[2]; [4]]; mx [[1]; [3]]]%Z.
Proof.
  apply (@Xy_to_Xn_keeps_order Z (mx [[1]; [2]; [3]; [4]]%Z) [7; 4; 7; 4]%Z 4%Z 7%Z).
  - reflexivity.
  - lia.
  - intros v. simpl. lia.
Defined.

(** ** [Xn_to_Xy] *)

Section GroupedToFlat.
Context {A : Type}.

Lemma mapM_ok_map {B C : Type} (f : B -> result C) (g : B -> C) (l : list B) :
  (forall b, In b l -> f b = Ok (g b)) -> mapM f l = Ok (map g l).
Proof.
  induction l as [|b l IH]; intros Hf; [reflexivity|]. simpl.
  rewrite (Hf b (or_introl eq_refl)). simpl.
  rewrite IH by (intros; apply Hf; now right). reflexivity.
Qed.

Lemma map_snd_combine {B C : Type} (l : list B) (l' : list C) :
  length l = length l' -> map snd (combine l l') = l'.
Proof.
  revert l'. induction l as [|b l IH]; intros [|c l'] E; try discriminate; [reflexivity|].
  simpl. f_equal. apply IH. now injection E.
Qed.

Lemma nth_error_combine {B C : Type} (l : list B) (l' : list C) n b c :
  nth_error l n = Some b -> nth_error l' n = Some c ->
  nth_error (combine l l') n = Some (b, c).
Proof.
  revert l l'. induction n as [|n IH]; intros [|b0 l] [|c0 l']; simpl; try discriminate.
  - congruence.
  - apply IH.
Qed.

Lemma combine_app {B C : Type} (l1 l2 : list B) (m1 m2 : list C) :
  length l1 = length m1 ->
  combine (l1 ++ l2) (m1 ++ m2) = combine l1 m1 ++ combine l2 m2.
Proof.
  revert m1. induction l1 as [|b l1 IH]; intros [|c m1] E; try discriminate; [reflexivity|].
  simpl. f_equal. apply IH. now injection E.
Qed.

Lemma nth_error_concat_offset {B : Type} (ls : list (list B)) g l r x :
  nth_error ls g = Some l -> nth_error l r = Some x ->
  nth_error (concat ls) (list_sum (map (@length B) (firstn g ls)) + r) = Some x.
Proof.
  revert g. induction ls as [|l0 ls IH]; intros [|g] Hg Hr; simpl in *; try discriminate.
  - injection Hg as ->. rewrite nth_error_app1; [exact Hr|].
    apply nth_error_Some. congruence.
  - rewrite nth_error_app2 by lia.
    replace (length l0 + list_sum (map (@length B) (firstn g ls)) + r - length l0)
      with (list_sum (map (@length B) (firstn g ls)) + r) by lia.
    now apply IH.
Qed.

Lemma enumerate_snd (Xn : list (matrix A)) : map snd (enumerate Xn) = Xn.
Proof.
  unfold enumerate. apply map_snd_combine. now rewrite length_map, length_seq.
Qed.

Lemma enumerate_nth (Xn : list (matrix A)) g G :
  nth_error Xn g = Some G -> nth_error (enumerate Xn) g = Some (Z.of_nat g, G).
Proof.
  intros Hg. unfold enumerate. apply nth_error_combine; [|exact Hg].
  assert (Hlt : g < length Xn) by (apply nth_error_Some; congruence).
  rewrite nth_error_map, nth_error_seq.
  destruct (Nat.ltb_spec g (length Xn)); [reflexivity|lia].
Qed.

Lemma enumerate_In (Xn : list (matrix A)) i G :
  In (i, G) (enumerate Xn) -> (0 <= i < Z.of_nat (length Xn))%Z.
Proof.
  intros Hin. apply in_combine_l in Hin. apply in_map_iff in Hin.
  destruct Hin as (k & <- & Hk). apply in_seq in Hk. lia.
Qed.

Lemma Xn_to_Xy_ok (numpy : casting) (X0 : matrix A) (rest : list (matrix A)) :
  (forall X, In X rest -> ncols X = ncols X0) ->
  numpy = ValueBased \/ length (X0 :: rest) <= 128 ->
  Xn_to_Xy numpy (X0 :: rest)
  = Ok (Matrix (ncols X0) (concat (map (@rows A) (X0 :: rest))),
        concat (group_labels (X0 :: rest))).
Proof.
  intros Hcols Hlen. unfold Xn_to_Xy, concatenate.
  replace (forallb (fun X => ncols X =? ncols X0) rest) with true.
  2:{ symmetry. apply forallb_forall. intros X HX. apply Nat.eqb_eq. now apply Hcols. }
  cbn [bind].
  rewrite (@mapM_ok_map _ _ _ (fun iX => repeat (fst iX) (nrows (snd iX)))).
  - reflexivity.
  - intros [i G] Hin. apply enumerate_In in Hin. unfold ones_int8_times.
    cbn [fst snd]. unfold int8_min, int8_max.
    destruct Hlen as [-> | Hlen]; [now rewrite Z.mul_1_l|].
    destruct numpy; [now rewrite Z.mul_1_l|].
    destruct (Z.leb_spec (-128) i); [|lia].
    destruct (Z.leb_spec i 127); [|lia].
    cbn [andb]. now rewrite Z.mul_1_l.
Qed.

Lemma group_labels_offset (Xn : list (matrix A)) g :
  list_sum (map (@length Z) (firstn g (group_labels Xn))) = offset Xn g.
Proof.
  unfold group_labels, offset.
  rewrite <- (enumerate_snd Xn) at 2.
  rewrite !firstn_map, !map_map. f_equal. apply map_ext.
  intros [i G]. apply repeat_length.
Qed.

Lemma rows_offset (Xn : list (matrix A)) g :
  list_sum (map (@length (list A)) (firstn g (map (@rows A) Xn))) = offset Xn g.
Proof.
  unfold offset. now rewrite firstn_map, map_map.
Qed.

Lemma length_concat_group_labels (Xn : list (matrix A)) :
  length (concat (group_labels Xn)) = length (concat (map (@rows A) Xn)).
Proof.
  rewrite !length_concat. f_equal. unfold group_labels.
  rewrite <- (enumerate_snd Xn) at 2. rewrite !map_map. apply map_ext.
  intros [i G]. apply repeat_length.
Qed.

Lemma nth_error_concat_inv {B : Type} (ls : list (list B)) p x :
  nth_error (concat ls) p = Some x ->
  exists g l r,
    nth_error ls g = Some l /\ nth_error l r = Some x /\
    p = list_sum (map (@length B) (firstn g ls)) + r.
Proof.
  revert p. induction ls as [|l0 ls IH]; intros p Hp.
  - destruct p; discriminate Hp.
  - cbn [concat] in Hp. destruct (Nat.lt_ge_cases p (length l0)) as [Hlt|Hge].
    + rewrite nth_error_app1 in Hp by exact Hlt.
      exists 0, l0, p. auto.
    + rewrite nth_error_app2 in Hp by exact Hge.
      destruct (IH _ Hp) as (g & l & r & Hg & Hr & E).
      exists (S g), l, r. split; [exact Hg|]. split; [exact Hr|].
      simpl. lia.
Qed.

Lemma group_labels_nth (Xn : list (matrix A)) g l :
  nth_error (group_labels Xn) g = Some l ->
  exists G, nth_error Xn g = Some G /\ l = repeat (Z.of_nat g) (nrows G).
Proof.
  intros Hl.
  assert (Hg : g < length Xn).
  { assert (H : g < length (group_labels Xn)) by (apply nth_error_Some; congruence).
    unfold group_labels, enumerate in H.
    rewrite length_map, length_combine, length_map, length_seq in H. lia. }
  destruct (nth_error Xn g) as [G|] eqn:EG.
  2:{ apply nth_error_None in EG. lia. }
  exists G. split; [reflexivity|].
  unfold group_labels in Hl.
  rewrite nth_error_map, (enumerate_nth _ _ EG) in Hl.
  cbn [option_map fst snd] in Hl. congruence.
Qed.

End GroupedToFlat.

(** C2 (as the code has it): for at least one group, the groups agreeing on
    their column count, and at most 128 groups when NumPy keeps the [int8]
    type of the label arrays (any number when it widens them), [Xn_to_Xy]
    returns as X the row-wise concatenation of the groups in the order
    given and as y one label per row of X, the label of every row being the
    index of the group it comes from. *)
Theorem Xn_to_Xy_labels (A : Type) (numpy : casting) (X0 : matrix A)
  (rest : list (matrix A)) :
  (forall X, In X rest -> ncols X = ncols X0) ->
  numpy = ValueBased \/ length (X0 :: rest) <= 128 ->
  labelled_by_group numpy (X0 :: rest).
Proof.
  intros Hcols Hlen. unfold labelled_by_group.
  eexists _, _. split; [now apply Xn_to_Xy_ok|]. cbn [rows ncols].
  split; [reflexivity|].
  split.
  { intros G [<-|HG]; [reflexivity|]. symmetry. now apply Hcols. }
  split; [unfold nrows; cbn [rows]; apply length_concat_group_labels|].
  split.
  - intros g G r row Hg Hr. split.
    + rewrite <- rows_offset.
      apply nth_error_concat_offset with (l := rows G); [|exact Hr].
      rewrite nth_error_map, Hg. reflexivity.
    + rewrite <- group_labels_offset.
      apply nth_error_concat_offset with (l := repeat (Z.of_nat g) (nrows G)).
      * unfold group_labels. rewrite nth_error_map, (enumerate_nth _ _ Hg). reflexivity.
      * assert (Hlt : r < nrows G) by (apply nth_error_Some; congruence).
        rewrite nth_error_repeat by exact Hlt. reflexivity.
  - intros p label Hp.
    destruct (nth_error_concat_inv _ _ Hp) as (g & l & r & Hg & Hr & E).
    destruct (group_labels_nth _ _ Hg) as (G & HG & ->).
    assert (Hlt : r < nrows G).
    { assert (H : r < length (repeat (Z.of_nat g) (nrows G)))
        by (apply nth_error_Some; congruence).
      now rewrite repeat_length in H. }
    exists g, G, r. split; [exact HG|]. split; [exact Hlt|].
    split; [now rewrite <- group_labels_offset|].
    apply nth_error_In, repeat_spec in Hr. exact Hr.
Qed.

Lemma Xn_to_Xy_labels_witness :
  labelled_by_group Weak [mx [[1; 2]; [3; 4]]; mx [[10; 20]]; mx [[5; 6]]]%Z.
Proof.
  apply Xn_to_Xy_labels.
  - simpl. intros X [<-|[<-|[]]]; reflexivity.
  - right. simpl. lia.
Defined.

(** C2 as stated fails: the label arrays are [int8], and with 129 groups
    the index 128 of the last group does not fit; where NumPy keeps the
    type of the array the product raises and no labels are returned. *)
Lemma Xn_to_Xy_labels_counterexample :
  ~ labelled_by_group Weak (repeat (mx [[0]]%Z) 129).
Proof.
  intros (X & y & Hrun & _). vm_compute in Hrun. discriminate Hrun.
Qed.

Example Xn_to_Xy_int8_overflow :
  Xn_to_Xy Weak (repeat (mx [[0]]%Z) 129) = Raise OverflowError.
Proof. vm_compute. reflexivity. Qed.

(** ** Round trip *)

Section RoundTrip.
Context {A : Type}.

Lemma filter_combine_repeat_eq (l : list (list A)) (v : Z) :
  map fst (filter (fun ry => (snd ry =? v)%Z) (combine l (repeat v (length l)))) = l.
Proof.
  induction l as [|r l IH]; [reflexivity|]. simpl.
  rewrite Z.eqb_refl. simpl. now rewrite IH.
Qed.

Lemma filter_combine_repeat_neq (l : list (list A)) (v w : Z) :
  v <> w ->
  filter (fun ry => (snd ry =? v)%Z) (combine l (repeat w (length l))) = [].
Proof.
  intros Hne. induction l as [|r l IH]; [reflexivity|]. simpl.
  destruct (Z.eqb_spec w v); [congruence|exact IH].
Qed.

Lemma flat_two (numpy : casting) (G0 G1 : matrix A) :
  ncols G1 = ncols G0 ->
  Xn_to_Xy numpy [G0; G1]
  = Ok (Matrix (ncols G0) (rows G0 ++ rows G1),
        repeat 0%Z (nrows G0) ++ repeat 1%Z (nrows G1)).
Proof.
  intros Hc. rewrite Xn_to_Xy_ok.
  - unfold group_labels, enumerate. simpl. now rewrite !app_nil_r.
  - intros X [<-|[]]. exact Hc.
  - right. simpl. lia.
Qed.

Lemma labels_two (n0 n1 : nat) (v : Z) :
  0 < n0 -> 0 < n1 ->
  In v (repeat 0%Z n0 ++ repeat 1%Z n1) <-> v = 0%Z \/ v = 1%Z.
Proof.
  intros H0 H1. rewrite in_app_iff. split.
  - intros [H|H]; apply repeat_spec in H; auto.
  - destruct n0; [lia|]. destruct n1; [lia|]. simpl. intros [-> | ->]; auto.
Qed.

End RoundTrip.

(** C6 (as the code has it): for two groups that are both non-empty and
    agree on their column count, [Xn_to_Xy] followed by [Xy_to_Xn] returns
    two groups with the rows of the first and of the second group. *)
Theorem round_trip_two_groups (A : Type) (numpy : casting) (G0 G1 : matrix A) :
  ncols G1 = ncols G0 ->
  0 < nrows G0 ->
  0 < nrows G1 ->
  round_trip numpy G0 G1.
Proof.
  intros Hc H0 H1. unfold round_trip.
  eexists _, _, _, _. split; [now apply flat_two|].
  split.
  - apply Xy_to_Xn_sorted_pair with (lo := 0%Z) (hi := 1%Z).
    + unfold nrows. cbn [rows]. now rewrite !length_app, !repeat_length.
    + lia.
    + intros v. now apply labels_two.
  - unfold rows_with. cbn [rows ncols].
    rewrite !combine_app by now rewrite repeat_length.
    rewrite !filter_app, !map_app. unfold nrows.
    rewrite !filter_combine_repeat_eq.
    rewrite !filter_combine_repeat_neq by lia.
    simpl. rewrite app_nil_r. split; apply Permutation_refl.
Qed.

Lemma round_trip_two_groups_witness :
  round_trip Weak (mx [[1; 2]; [3; 4]]%Z) (mx [[10; 20]]%Z).
Proof.
  apply round_trip_two_groups.
  - reflexivity.
  - vm_compute. lia.
  - vm_compute. lia.
Defined.

(** C6 as stated fails: when a group has no rows the flat labels have one
    distinct value and the way back is refused. *)
Lemma round_trip_counterexample :
  ~ round_trip Weak (Matrix 1 []) (mx [[1]]%Z) /\
  ~ round_trip ValueBased (Matrix 1 []) (mx [[1]]%Z).
Proof.
  split; intros (X & y & G0' & G1' & Hflat & Hback & _);
    vm_compute in Hflat; injection Hflat as HX Hy; subst X y;
    vm_compute in Hback; discriminate Hback.
Qed.

(** ** Integer indexing *)

Section Take.
Context {A : Type}.

Lemma take_Ok_iff (l : list A) (idx : list nat) (r : list A) :
  take l idx = Ok r <-> map Some r = map (nth_error l) idx.
Proof.
  unfold take. revert r. induction idx as [|i idx IH]; intros r; simpl.
  - split.
    + intros E. injection E as <-. reflexivity.
    + destruct r; [reflexivity|discriminate].
  - destruct (nth_error l i) as [v|]; simpl.
    + destruct (mapM _ idx) as [r'|e] eqn:E; simpl.
      * split.
        -- intros E'. injection E' as <-. simpl. f_equal. now apply IH.
        -- destruct r as [|v' r]; [discriminate|]. simpl. intros E'.
           injection E' as -> E'. apply IH in E'. congruence.
      * split; [discriminate|].
        destruct r as [|v' r]; [discriminate|]. simpl. intros E'.
        injection E' as -> E'. apply IH in E'. discriminate.
    + split; [discriminate|]. destruct r; discriminate.
Qed.

Lemma take_total (l : list A) (idx : list nat) :
  Forall (fun i => i < length l) idx -> exists r, take l idx = Ok r.
Proof.
  unfold take. induction 1 as [|i idx Hi _ [r IH]]; simpl; [eauto|].
  destruct (nth_error l i) eqn:E.
  - rewrite IH. simpl. eauto.
  - apply nth_error_None in E. lia.
Qed.

Lemma take_length (l : list A) (idx : list nat) (r : list A) :
  take l idx = Ok r -> length r = length idx.
Proof.
  intros E. apply take_Ok_iff in E.
  apply (f_equal (@length _)) in E. now rewrite !length_map in E.
Qed.

Lemma take_nth (l : list A) (idx : list nat) (r : list A) p i :
  take l idx = Ok r -> nth_error idx p = Some i ->
  nth_error r p = nth_error l i /\ i < length l.
Proof.
  intros E Hp. apply take_Ok_iff in E.
  apply (f_equal (fun x => nth_error x p)) in E.
  rewrite !nth_error_map, Hp in E. simpl in E.
  destruct (nth_error r p) as [v|] eqn:Er; simpl in E.
  - injection E as E. split; [exact E|]. apply nth_error_Some. congruence.
  - discriminate.
Qed.

Lemma take_In (l : list A) (idx : list nat) (r : list A) v :
  take l idx = Ok r -> In v r -> exists i, In i idx /\ nth_error l i = Some v.
Proof.
  intros E Hv. apply In_nth_error in Hv. destruct Hv as [p Hp].
  assert (Hlt : p < length idx).
  { rewrite <- (take_length _ _ E). apply nth_error_Some. congruence. }
  destruct (nth_error idx p) as [i|] eqn:Ei.
  - exists i. split; [eapply nth_error_In; eassumption|].
    destruct (take_nth _ _ _ E Ei) as [<- _]. exact Hp.
  - apply nth_error_None in Ei. lia.
Qed.

End Take.

(** ** [AbsDiffTransformer] *)

Section AbsDiff.
Context {A : Type} `{Dtype A}.

Lemma slice_last_pairs (X : ndarray A) (m f c : nat) :
  shape X = [m; f; 2] -> well_shaped X -> c < 2 ->
  exists cells,
    slice_last X c = Ok (NdArray [m; f] cells) /\
    length cells = m * f /\
    forall k, k < m * f -> nth_error cells k = nth_error (data X) (k * 2 + c).
Proof.
  intros Hs Hw Hc. unfold slice_last. rewrite Hs.
  destruct (Nat.ltb_spec c 2); [|lia].
  unfold well_shaped in Hw. rewrite Hs in Hw. simpl in Hw.
  destruct (@take_total _ (data X) (map (fun k => k * 2 + c) (seq 0 (m * f))))
    as [cells Hcells].
  { apply Forall_forall. intros i Hi. apply in_map_iff in Hi.
    destruct Hi as (k & <- & Hk). apply in_seq in Hk. nia. }
  exists cells. rewrite Hcells. simpl. split; [reflexivity|]. split.
  - rewrite (take_length _ _ Hcells). now rewrite length_map, length_seq.
  - intros k Hk. eapply take_nth; [exact Hcells|].
    rewrite nth_error_map, nth_error_seq.
    destruct (Nat.ltb_spec k (m * f)); [reflexivity|lia].
Qed.

Lemma zip_with_nth {B C D : Type} (g : B -> C -> D) l l' k b c :
  nth_error l k = Some b -> nth_error l' k = Some c ->
  nth_error (zip_with g l l') k = Some (g b c).
Proof.
  intros Hb Hc. unfold zip_with.
  now rewrite nth_error_map, (nth_error_combine _ _ _ Hb Hc).
Qed.

Lemma zip_with_length {B C D : Type} (g : B -> C -> D) l l' :
  length l = length l' -> length (zip_with g l l') = length l.
Proof.
  intros E. unfold zip_with. rewrite length_map, length_combine. lia.
Qed.

Lemma transform_bad_shape (X : ndarray A) :
  (forall m f, shape X <> [m; f; 2]) ->
  AbsDiffTransformer.transform X = Raise AssertionError.
Proof.
  intros Hs. unfold AbsDiffTransformer.transform.
  destruct (shape X) as [|m [|f [|d [|e sh]]]] eqn:E; try reflexivity.
  simpl. destruct (Nat.eqb_spec d 2) as [->|Hd]; [|reflexivity].
  now destruct (Hs m f).
Qed.

(** The reducer on a full array of pairs, whatever the element type. *)
Lemma abs_diff_run (X : ndarray A) (m f : nat) :
  shape X = [m; f; 2] -> well_shaped X ->
  exists Y,
    AbsDiffTransformer.transform X = Ok Y /\
    shape Y = [m; f] /\
    well_shaped Y /\
    forall i j, i < m -> j < f ->
      exists a b,
        cell3 X i j 0 = Some a /\
        cell3 X i j 1 = Some b /\
        cell2 Y i j = Some (dabs (dsub a b)).
Proof.
  intros Hs Hw.
  destruct (slice_last_pairs (c := 0) Hs Hw) as (c0 & E0 & L0 & N0); [lia|].
  destruct (slice_last_pairs (c := 1) Hs Hw) as (c1 & E1 & L1 & N1); [lia|].
  unfold AbsDiffTransformer.transform. rewrite Hs. simpl.
  rewrite E0, E1. simpl.
  eexists. split; [reflexivity|]. simpl. split; [reflexivity|]. split.
  - unfold well_shaped. simpl. rewrite length_map, zip_with_length; lia.
  - intros i j Hi Hj.
    assert (Hk : i * f + j < m * f) by nia.
    unfold well_shaped in Hw. rewrite Hs in Hw. simpl in Hw.
    destruct (nth_error (data X) ((i * f + j) * 2 + 0)) as [a|] eqn:Ea.
    2:{ apply nth_error_None in Ea. lia. }
    destruct (nth_error (data X) ((i * f + j) * 2 + 1)) as [b|] eqn:Eb.
    2:{ apply nth_error_None in Eb. lia. }
    exists a, b. unfold cell3, cell2. rewrite Hs. simpl.
    destruct (Nat.ltb_spec i m); [|lia]. destruct (Nat.ltb_spec j f); [|lia].
    simpl. split; [exact Ea|]. split; [exact Eb|].
    rewrite nth_error_map.
    rewrite (@zip_with_nth _ _ _ dsub c0 c1 (i * f + j) a b); [reflexivity| |].
    + now rewrite N0.
    + now rewrite N1.
Qed.

End AbsDiff.

(** ** The arithmetic of [int64] and of doubles *)

Lemma wrap64_range (z : Z) : (- 2 ^ 63 <= wrap64 z <= int64_max)%Z.
Proof.
  unfold wrap64, int64_max.
  pose proof (Z.mod_pos_bound (z + 2 ^ 63) (2 ^ 64) eq_refl). lia.
Qed.

Lemma wrap64_small (z : Z) :
  (- 2 ^ 63 <= z <= int64_max)%Z -> wrap64 z = z.
Proof.
  unfold wrap64, int64_max. intros Hz.
  rewrite Z.mod_small by lia. lia.
Qed.

(** The [int64] absolute difference is the exact one exactly when the
    exact one is an [int64]. *)
Lemma int64_abs_diff_exact (a b : Z) :
  dabs (dsub a b) = Z.abs (a - b) <-> (Z.abs (a - b) <= int64_max)%Z.
Proof.
  cbn [dabs dsub int64]. split.
  - intros E. rewrite <- E. apply wrap64_range.
  - intros Hab.
    assert (E : wrap64 (a - b) = (a - b)%Z)
      by (apply wrap64_small; unfold int64_max in *; lia).
    rewrite E. apply wrap64_small. unfold int64_max in *. lia.
Qed.

(** The absolute difference of doubles is IEEE 754's: the absolute value
    of the correctly rounded difference. *)
Lemma float64_abs_diff_ieee (a b : PrimFloat.float) :
  FloatOps.Prim2SF (dabs (dsub a b))
  = SpecFloat.SFabs (FloatAxioms.SF64sub (FloatOps.Prim2SF a) (FloatOps.Prim2SF b)).
Proof.
  cbn [dabs dsub float64].
  now rewrite FloatAxioms.abs_spec, FloatAxioms.sub_spec.
Qed.

(** C8 (as the code has it): on a well-formed array of shape (m, f, 2) the
    reducer returns a well-formed array of shape (m, f) whose cell (i, j) is
    the absolute difference of the cells (i, j, 0) and (i, j, 1) computed
    in the element type of the array. On [int64] cells a and b it is the
    wrapped absolute value of the wrapped difference, which is the number
    |a - b| exactly when |a - b| is at most 2^63 - 1; on doubles it is the
    IEEE 754 absolute value of the correctly rounded difference. On an
    array of any other shape, of any element type, the reducer fails with
    an AssertionError (the code's form of the shape error). *)
Theorem AbsDiffTransformer_transform_spec :
  (forall (X : ndarray Z) (m f : nat),
      shape X = [m; f; 2] -> well_shaped X ->
      exists Y,
        @AbsDiffTransformer.transform Z int64 X = Ok Y /\
        shape Y = [m; f] /\
        well_shaped Y /\
        forall i j, i < m -> j < f ->
          exists a b,
            cell3 X i j 0 = Some a /\
            cell3 X i j 1 = Some b /\
            cell2 Y i j = Some (wrap64 (Z.abs (wrap64 (a - b)))) /\
            (cell2 Y i j = Some (Z.abs (a - b))
             <-> (Z.abs (a - b) <= int64_max)%Z)) /\
  (forall (X : ndarray PrimFloat.float) (m f : nat),
      shape X = [m; f; 2] -> well_shaped X ->
      exists Y,
        @AbsDiffTransformer.transform PrimFloat.float float64 X = Ok Y /\
        shape Y = [m; f] /\
        well_shaped Y /\
        forall i j, i < m -> j < f ->
          exists a b v,
            cell3 X i j 0 = Some a /\
            cell3 X i j 1 = Some b /\
            cell2 Y i j = Some v /\
            v = PrimFloat.abs (PrimFloat.sub a b) /\
            FloatOps.Prim2SF v
            = SpecFloat.SFabs
                (FloatAxioms.SF64sub (FloatOps.Prim2SF a) (FloatOps.Prim2SF b))) /\
  (forall (A : Type) (D : Dtype A) (X : ndarray A),
      (forall m f, shape X <> [m; f; 2]) ->
      AbsDiffTransformer.transform X = Raise AssertionError).
Proof.
  split; [|split].
  - intros X m f Hs Hw.
    destruct (@abs_diff_run Z int64 X m f Hs Hw) as (Y & E & HsY & HwY & Hcells).
    exists Y. split; [exact E|]. split; [exact HsY|]. split; [exact HwY|].
    intros i j Hi Hj. destruct (Hcells i j Hi Hj) as (a & b & Ha & Hb & Hc).
    exists a, b. split; [exact Ha|]. split; [exact Hb|]. split; [exact Hc|].
    rewrite Hc, <- int64_abs_diff_exact. split; congruence.
  - intros X m f Hs Hw.
    destruct (@abs_diff_run _ float64 X m f Hs Hw) as (Y & E & HsY & HwY & Hcells).
    exists Y. split; [exact E|]. split; [exact HsY|]. split; [exact HwY|].
    intros i j Hi Hj. destruct (Hcells i j Hi Hj) as (a & b & Ha & Hb & Hc).
    exists a, b, (dabs (dsub a b)).
    split; [exact Ha|]. split; [exact Hb|]. split; [exact Hc|].
    split; [reflexivity|]. apply float64_abs_diff_ieee.
  - intros A D X. apply transform_bad_shape.
Qed.

Lemma AbsDiffTransformer_transform_spec_witness :
  (exists Y,
      @AbsDiffTransformer.transform Z int64
        (NdArray [2; 2; 2] [1; 5; 7; 2; 3; 3; 0; 9]%Z) = Ok Y /\
      shape Y = [2; 2] /\
      cell2 Y 0 0 = Some 4%Z) /\
  (exists Y,
      @AbsDiffTransformer.transform PrimFloat.float float64
        (NdArray [1; 2; 2] [0.5; 2.25; 1.5; -2.25]%float) = Ok Y /\
      shape Y = [1; 2]) /\
  @AbsDiffTransformer.transform Z int64 (NdArray [2; 3] [1; 5; 7; 2; 3; 3]%Z)
  = Raise AssertionError.
Proof.
  split; [|split].
  - destruct (proj1 AbsDiffTransformer_transform_spec
                (NdArray [2; 2; 2] [1; 5; 7; 2; 3; 3; 0; 9]%Z) 2 2)
      as (Y & E & Hs & _ & Hcells).
    + reflexivity.
    + reflexivity.
    + exists Y. split; [exact E|]. split; [exact Hs|].
      destruct (Hcells 0 0) as (a & b & Ha & Hb & _ & Hc); [lia|lia|].
      vm_compute in Ha, Hb. injection Ha as <-. injection Hb as <-.
      apply Hc. vm_compute. discriminate.
  - destruct (proj1 (proj2 AbsDiffTransformer_transform_spec)
                (NdArray [1; 2; 2] [0.5; 2.25; 1.5; -2.25]%float) 1 2)
      as (Y & E & Hs & _).
    + reflexivity.
    + reflexivity.
    + exists Y. split; [exact E|exact Hs].
  - apply (proj2 (proj2 AbsDiffTransformer_transform_spec) Z int64
             (NdArray [2; 3] [1; 5; 7; 2; 3; 3]%Z)).
    intros m f. simpl. discriminate.
Defined.

(** C8 as stated fails on [int64] arrays: for the cells 2^63 - 1 and -1
    the difference 2^63 is no [int64]; the subtraction wraps around to
    -2^63, whose absolute value wraps again, and the cell the reducer
    returns is -2^63, not the absolute difference 2^63. *)
Lemma AbsDiffTransformer_transform_spec_counterexample :
  ~ exact_abs_diff (NdArray [1; 1; 2] [9223372036854775807; -1]%Z).
Proof.
  intros (Y & E & Hcells).
  vm_compute in E. injection E as <-.
  specialize (Hcells 0 0 9223372036854775807%Z (-1)%Z eq_refl eq_refl).
  vm_compute in Hcells. discriminate Hcells.
Qed.

Example abs_diff_int64_wraps :
  @AbsDiffTransformer.transform Z int64
    (NdArray [1; 1; 2] [9223372036854775807; -1]%Z)
  = Ok (NdArray [1; 1] [-9223372036854775808]%Z).
Proof. vm_compute. reflexivity. Qed.

(** ** The index pairs of the pairing engine *)

Section Grid.

Lemma all_pairs_grid (n : nat) : InstancePairing.all_pairs n = grid n.
Proof.
  unfold InstancePairing.all_pairs, grid, reshape_pairs, transpose3, meshgrid, arange.
  cbn [fst snd]. rewrite list_prod_as_flat_map, flat_map_concat_map, concat_map.
  rewrite !map_map, length_seq. f_equal. apply map_ext_in. intros a Ha.
  rewrite map_map. apply map_ext_in. intros b Hb.
  apply in_seq in Ha. apply in_seq in Hb. cbn [seq map nth].
  rewrite nth_repeat_lt by lia.
  rewrite seq_nth by lia.
  rewrite (nth_indep _ [] (repeat 0 n)) by (rewrite length_map, length_seq; lia).
  rewrite (map_nth (fun v => repeat v n)), seq_nth by lia.
  rewrite nth_repeat_lt by lia. reflexivity.
Qed.

Lemma grid_In (n : nat) (p : nat * nat) :
  In p (grid n) <-> fst p < n /\ snd p < n.
Proof.
  destruct p as [a b]. unfold grid. rewrite in_prod_iff, !in_seq. simpl. lia.
Qed.

Lemma list_prod_NoDup (l l' : list nat) :
  NoDup l -> NoDup l' -> NoDup (list_prod l l').
Proof.
  intros Hl Hl'. induction Hl as [|a l Ha Hl IH]; simpl; [constructor|].
  apply NoDup_app; [| exact IH |].
  - apply Finite.Injective_map_NoDup; [|exact Hl'].
    intros x y E. now injection E.
  - intros [x y] H1 H2. apply in_map_iff in H1. destruct H1 as (b & E & _).
    injection E as <- _. apply in_prod_iff in H2. tauto.
Qed.

Lemma grid_NoDup (n : nat) : NoDup (grid n).
Proof.
  apply list_prod_NoDup; apply seq_NoDup.
Qed.

End Grid.

(** ** Masks, positions and sampling *)

Section Sampling.
Context {B : Type}.

Lemma where_from (f : B -> bool) (ps : list B) (s : nat) :
  map (fun k => nth_error ps (k - s))
      (map fst (filter snd (combine (seq s (length ps)) (map f ps))))
  = map Some (filter f ps).
Proof.
  revert s. induction ps as [|p ps IH]; intros s; [reflexivity|].
  cbn [length seq map combine filter snd].
  assert (Hshift :
    map (fun k => nth_error (p :: ps) (k - s))
        (map fst (filter snd (combine (seq (S s) (length ps)) (map f ps))))
    = map Some (filter f ps)).
  { rewrite <- (IH (S s)). apply map_ext_in. intros k Hk.
    apply in_map_iff in Hk. destruct Hk as ([k' b] & <- & Hk).
    apply filter_In in Hk. destruct Hk as [Hk _]. apply in_combine_l in Hk.
    apply in_seq in Hk. cbn [fst].
    replace (k' - s) with (S (k' - S s)) by lia. reflexivity. }
  destruct (f p); cbn [map fst]; [|exact Hshift].
  rewrite Nat.sub_diag. cbn [nth_error]. now rewrite Hshift.
Qed.

(** Indexing a list with the positions at which a mask computed from it is
    true filters the list. *)
Lemma take_where (f : B -> bool) (ps : list B) :
  take ps (where_ (map f ps)) = Ok (filter f ps).
Proof.
  apply take_Ok_iff. unfold where_. rewrite length_map.
  rewrite <- (where_from f ps 0). apply map_ext. intros k.
  now rewrite Nat.sub_0_r.
Qed.

Lemma where_length (f : B -> bool) (ps : list B) :
  length (where_ (map f ps)) = length (filter f ps).
Proof.
  symmetry. apply take_length with (l := ps). apply take_where.
Qed.

(** Indexing through a selection of positions. *)
Lemma take_take (ps cand : list B) (rows rows' idx : list nat) :
  take ps rows = Ok cand -> take rows idx = Ok rows' ->
  exists sel, take ps rows' = Ok sel /\ take cand idx = Ok sel.
Proof.
  intros Hc. revert rows'. induction idx as [|i idx IH]; intros rows' Hr.
  - unfold take in Hr. simpl in Hr. injection Hr as <-. exists []. split; reflexivity.
  - unfold take in Hr. simpl in Hr.
    destruct (nth_error rows i) as [r|] eqn:Er; [|discriminate]. simpl in Hr.
    destruct (mapM _ idx) as [rows''|] eqn:Erest; [|discriminate].
    simpl in Hr. injection Hr as <-.
    destruct (IH rows'' Erest) as (sel & Hsel & Hcand).
    destruct (take_nth _ _ _ Hc Er) as [Hnth Hlt].
    destruct (nth_error ps r) as [v|] eqn:Ev.
    2:{ apply nth_error_None in Ev. lia. }
    exists (v :: sel). unfold take in *. simpl.
    rewrite Ev, Hnth, Hsel, Hcand. split; reflexivity.
Qed.

Lemma picked_In (cand sel : list B) (v : B) :
  picked cand sel -> In v sel -> In v cand.
Proof.
  intros (idx & _ & Ht) Hv. destruct (take_In _ _ _ Ht Hv) as (i & _ & Hi).
  eapply nth_error_In. exact Hi.
Qed.

Lemma picked_NoDup (cand sel : list B) :
  picked cand sel -> NoDup cand -> NoDup sel.
Proof.
  intros (idx & Hidx & Ht) Hc. apply NoDup_nth_error. intros p q Hp Hpq.
  rewrite (take_length _ _ Ht) in Hp.
  destruct (nth_error idx p) as [i|] eqn:Ei.
  2:{ apply nth_error_None in Ei. lia. }
  destruct (take_nth _ _ _ Ht Ei) as [Ep Hi].
  assert (Hq : q < length idx).
  { rewrite <- (take_length _ _ Ht). apply nth_error_Some. rewrite <- Hpq, Ep.
    apply nth_error_Some. exact Hi. }
  destruct (nth_error idx q) as [j|] eqn:Ej.
  2:{ apply nth_error_None in Ej. lia. }
  destruct (take_nth _ _ _ Ht Ej) as [Eq Hj].
  rewrite Ep, Eq in Hpq.
  assert (i = j) by (apply (proj1 (NoDup_nth_error cand) Hc); assumption).
  subst j. apply (proj1 (NoDup_nth_error idx) Hidx); [lia|congruence].
Qed.

Lemma kept_In (limit : option Z) (cand sel : list B) (v : B) :
  kept limit cand sel -> In v sel -> In v cand.
Proof.
  unfold kept. destruct limit as [l|].
  - destruct (l <? Z.of_nat (length cand))%Z.
    + intros [Hp _]. now apply picked_In.
    + now intros ->.
  - now intros ->.
Qed.

Lemma kept_NoDup (limit : option Z) (cand sel : list B) :
  kept limit cand sel -> NoDup cand -> NoDup sel.
Proof.
  unfold kept. destruct limit as [l|].
  - destruct (l <? Z.of_nat (length cand))%Z.
    + intros [Hp _]. now apply picked_NoDup.
    + now intros ->.
  - now intros ->.
Qed.

End Sampling.

Section Choice.
Context {R : Random.source}.

Lemma firstn_NoDup {B : Type} (k : nat) (l : list B) : NoDup l -> NoDup (firstn k l).
Proof.
  intros Hl. rewrite <- (firstn_skipn k l) in Hl. now apply NoDup_app_remove_r in Hl.
Qed.

Lemma firstn_In {B : Type} (k : nat) (l : list B) (v : B) :
  In v (firstn k l) -> In v l.
Proof.
  intros Hv. rewrite <- (firstn_skipn k l). apply in_or_app. now left.
Qed.

Lemma choice_ok (a : list nat) (k : Z) (s : Random.state R) :
  (0 <= k <= Z.of_nat (length a))%Z ->
  exists r s',
    Random.choice a k s = Ok (r, s') /\ picked a r /\ Z.of_nat (length r) = k.
Proof.
  intros Hk. unfold Random.choice.
  destruct (Z.ltb_spec k 0); [lia|].
  destruct (Z.ltb_spec (Z.of_nat (length a)) k); [lia|].
  pose proof (Random.permutation_perm R s (length a)) as Hperm.
  set (perm := fst (Random.permutation R s (length a))) in *.
  assert (Hnd : NoDup (firstn (Z.to_nat k) perm)).
  { apply firstn_NoDup. apply (Permutation_NoDup (Permutation_sym Hperm)), seq_NoDup. }
  destruct (@take_total _ a (firstn (Z.to_nat k) perm)) as [r Hr].
  { apply Forall_forall. intros i Hi. apply firstn_In in Hi.
    apply (Permutation_in _ Hperm), in_seq in Hi. lia. }
  exists r, (snd (Random.permutation R s (length a))). rewrite Hr.
  split; [reflexivity|]. split; [exists (firstn (Z.to_nat k) perm); auto|].
  rewrite (take_length _ _ Hr), length_firstn.
  rewrite (Permutation_length Hperm), length_seq. lia.
Qed.

Lemma choice_negative (a : list nat) (k : Z) (s : Random.state R) :
  (k < 0)%Z -> Random.choice a k s = Raise ValueError.
Proof.
  intros Hk. unfold Random.choice. destruct (Z.ltb_spec k 0); [reflexivity|lia].
Qed.

(** One sampling step of [transform]: the rows it keeps index a selection
    of the candidates. *)
Lemma sample_stage {B : Type} (f : B -> bool) (ps : list B) (l : Z)
  (s : Random.state R) :
  (0 <= l)%Z ->
  exists rows sel s',
    (if (l <? Z.of_nat (length (where_ (map f ps))))%Z
     then Random.choice (where_ (map f ps)) l
     else Random.ret (where_ (map f ps))) s = Ok (rows, s') /\
    take ps rows = Ok sel /\
    kept (Some l) (filter f ps) sel.
Proof.
  intros Hl. unfold kept. rewrite where_length.
  destruct (Z.ltb_spec l (Z.of_nat (length (filter f ps)))) as [Hlt|Hge].
  - destruct (@choice_ok (where_ (map f ps)) l s) as (rows & s' & Ec & (idx & Hnd & Ht) & Hlen).
    { rewrite where_length. lia. }
    destruct (@take_take _ ps (filter f ps) (where_ (map f ps)) rows idx
                (take_where f ps) Ht) as (sel & Hsel & Hcand).
    exists rows, sel, s'. split; [exact Ec|]. split; [exact Hsel|]. split.
    + exists idx. auto.
    + rewrite (take_length _ _ Hsel). exact Hlen.
  - exists (where_ (map f ps)), (filter f ps), s. split; [reflexivity|].
    split; [apply take_where|reflexivity].
Qed.

Lemma same_stage {B : Type} (f : B -> bool) (ps : list B) (lim : option Z)
  (s : Random.state R) :
  match lim with Some l => (0 <= l)%Z | None => True end ->
  exists rows sel s',
    match lim with
    | Some l =>
        if (l <? Z.of_nat (length (where_ (map f ps))))%Z
        then Random.choice (where_ (map f ps)) l
        else Random.ret (where_ (map f ps))
    | None => Random.ret (where_ (map f ps))
    end s = Ok (rows, s') /\
    take ps rows = Ok sel /\
    kept lim (filter f ps) sel.
Proof.
  destruct lim as [l|]; intros Hl.
  - now apply sample_stage.
  - exists (where_ (map f ps)), (filter f ps), s. split; [reflexivity|].
    split; [apply take_where|reflexivity].
Qed.

End Choice.

Section Masks.

Lemma zip_with_map {B C D E : Type} (g : C -> D -> E) (h : B -> C) (h' : B -> D)
  (ps : list B) :
  zip_with g (map h ps) (map h' ps) = map (fun p => g (h p) (h' p)) ps.
Proof.
  unfold zip_with. induction ps as [|p ps IH]; [reflexivity|].
  simpl. now rewrite IH.
Qed.

Lemma take_labels (y : list Z) (n : nat) (proj : nat * nat -> nat) :
  n <= length y ->
  (forall p, In p (grid n) -> proj p < n) ->
  take y (map proj (grid n)) = Ok (map (fun p => label_at y (proj p)) (grid n)).
Proof.
  intros Hn Hproj. apply take_Ok_iff. rewrite !map_map. apply map_ext_in.
  intros p Hp. symmetry. apply nth_error_nth'. specialize (Hproj p Hp). lia.
Qed.

Lemma take_labels_short (y : list Z) (n : nat) :
  length y < n ->
  take y (map fst (grid n)) = Raise IndexError.
Proof.
  intros Hn. destruct (take y (map fst (grid n))) as [r|e] eqn:E.
  - exfalso. assert (Hin : In (n - 1) (map fst (grid n))).
    { apply in_map_iff. exists (n - 1, 0). split; [reflexivity|].
      apply grid_In. simpl. lia. }
    apply In_nth_error in Hin. destruct Hin as [k Hk].
    destruct (take_nth _ _ _ E Hk) as [_ Hlt]. lia.
  - f_equal. unfold take in E. revert e E. generalize (map fst (grid n)) as idx.
    induction idx as [|i idx IH]; simpl; intros e E; [discriminate|].
    destruct (nth_error y i); simpl in E; [|congruence].
    destruct (mapM _ idx) as [r|e'] eqn:E'; simpl in E; [discriminate|].
    injection E as <-. now apply IH.
Qed.

End Masks.

(** The first steps of [transform] on labels that cover the rows: the index
    pairs are the grid and both label lookups succeed. *)
Ltac read_labels Hy :=
  unfold InstancePairing.transform, Random.bind, Random.lift;
  rewrite all_pairs_grid;
  rewrite (@take_labels _ _ fst Hy) by (intros ? Hp; now apply grid_In in Hp);
  rewrite (@take_labels _ _ snd Hy) by (intros ? Hp; now apply grid_In in Hp).

(** ** [InstancePairing.transform] *)

Section Pairing.
Context {R : Random.source} {A : Type}.

Lemma masks_same (y : list Z) (ps : list (nat * nat)) :
  zip_with andb
    (zip_with Nat.ltb (map fst ps) (map snd ps))
    (zip_with Z.eqb (map (fun p => label_at y (fst p)) ps)
                    (map (fun p => label_at y (snd p)) ps))
  = map (fun p => canonical p && same_source y p) ps.
Proof.
  rewrite !zip_with_map. reflexivity.
Qed.

Lemma masks_diff (y : list Z) (ps : list (nat * nat)) :
  zip_with andb
    (zip_with Nat.ltb (map fst ps) (map snd ps))
    (map negb
       (zip_with Z.eqb (map (fun p => label_at y (fst p)) ps)
                       (map (fun p => label_at y (snd p)) ps)))
  = map (fun p => canonical p && negb (same_source y p)) ps.
Proof.
  rewrite (zip_with_map Z.eqb), map_map, !zip_with_map. reflexivity.
Qed.

Lemma candidates_in_grid (y : list Z) (n : nat) (c : bool -> bool) (p : nat * nat) :
  In p (filter (fun p => canonical p && c (same_source y p)) (grid n)) ->
  fst p < snd p /\ snd p < n /\ c (same_source y p) = true.
Proof.
  intros Hp. apply filter_In in Hp. destruct Hp as [Hg Hf].
  apply grid_In in Hg. apply andb_prop in Hf. destruct Hf as [Hc Hs].
  unfold canonical in Hc. apply Nat.ltb_lt in Hc. tauto.
Qed.

Lemma take_rows_total (X : matrix A) (idx : list nat) :
  Forall (fun i => i < nrows X) idx ->
  exists r, take (rows X) idx = Ok r /\ length r = length idx.
Proof.
  intros Hidx. destruct (@take_total _ (rows X) idx Hidx) as [r Hr].
  exists r. split; [exact Hr|]. apply (take_length _ _ Hr).
Qed.

Lemma transform_run (self : InstancePairing.t) (X : matrix A) (y : list Z)
  (s : Random.state R) :
  nrows X <= length y ->
  limits_ok self ->
  exists sel_same sel_diff X' s',
    InstancePairing.transform self X y s
    = Ok ((InstancePairing.Make (InstancePairing._ss_limit self)
             (InstancePairing._ds_limit self) (Some (sel_same ++ sel_diff)),
           (X', repeat 1%Z (length sel_same) ++ repeat 0%Z (length sel_diff))),
          s') /\
    kept (InstancePairing._ss_limit self) (same_candidates y (nrows X)) sel_same /\
    kept (effective_ds_limit self (length sel_same))
         (diff_candidates y (nrows X)) sel_diff /\
    shape X' = [length (sel_same ++ sel_diff); ncols X; 2].
Proof.
  intros Hy [Hss Hds].
  read_labels Hy.
  rewrite masks_same, masks_diff.
  destruct (@same_stage R _ (fun p => canonical p && same_source y p) (grid (nrows X))
              (InstancePairing._ss_limit self) s Hss)
    as (rows_same & sel_same & s1 & E1 & T1 & K1).
  rewrite E1.
  set (fdiff := fun p => canonical p && negb (same_source y p)).
  set (dsl := match InstancePairing._ds_limit self with
              | InstancePairing.DsNone =>
                  Z.of_nat (length (where_ (map fdiff (grid (nrows X)))))
              | InstancePairing.DsBalanced => Z.of_nat (length rows_same)
              | InstancePairing.DsInt l => l
              end).
  assert (Hdsl : (0 <= dsl)%Z).
  { unfold dsl. destruct (InstancePairing._ds_limit self); lia. }
  destruct (@sample_stage R _ fdiff (grid (nrows X)) dsl s1 Hdsl)
    as (rows_diff & sel_diff & s2 & E2 & T2 & K2).
  rewrite E2, T1, T2.
  assert (Hin : Forall (fun p => fst p < nrows X /\ snd p < nrows X)
                       (sel_same ++ sel_diff)).
  { apply Forall_forall. intros p Hp. apply in_app_or in Hp.
    destruct Hp as [Hp|Hp].
    - eapply kept_In in Hp; [|exact K1].
      apply (candidates_in_grid y (nrows X) (fun b => b)) in Hp. lia.
    - eapply kept_In in Hp; [|exact K2].
      apply (candidates_in_grid y (nrows X) negb) in Hp. lia. }
  destruct (take_rows_total X (idx := map fst (sel_same ++ sel_diff)))
    as (X0 & EX0 & LX0).
  { apply Forall_forall. intros i Hi. apply in_map_iff in Hi.
    destruct Hi as (p & <- & Hp). rewrite Forall_forall in Hin.
    now apply Hin. }
  destruct (take_rows_total X (idx := map snd (sel_same ++ sel_diff)))
    as (X1 & EX1 & LX1).
  { apply Forall_forall. intros i Hi. apply in_map_iff in Hi.
    destruct Hi as (p & <- & Hp). rewrite Forall_forall in Hin.
    now apply Hin. }
  rewrite EX0, EX1. unfold stack2, nrows. cbn [rows ncols].
  rewrite LX0, LX1, !length_map, !Nat.eqb_refl. cbn [andb].
  unfold Random.ret.
  rewrite <- (take_length _ _ T1), <- (take_length _ _ T2).
  eexists sel_same, sel_diff, _, _. split; [reflexivity|].
  split; [exact K1|]. split; [|reflexivity].
  unfold effective_ds_limit, dsl in *. rewrite <- (take_length _ _ T1) in K2.
  destruct (InstancePairing._ds_limit self); try exact K2.
  unfold kept in *. rewrite where_length in K2.
  now rewrite Z.ltb_irrefl in K2.
Qed.

End Pairing.

(** ** Counting the candidate pairs *)

Section Counting.

Lemma filter_map_length {B C : Type} (f : C -> bool) (g : B -> C) (l : list B) :
  length (filter f (map g l)) = length (filter (fun b => f (g b)) l).
Proof.
  induction l as [|b l IH]; [reflexivity|]. simpl.
  destruct (f (g b)); simpl; now rewrite IH.
Qed.

Lemma filter_ext_length {B : Type} (f g : B -> bool) (l : list B) :
  (forall b, f b = g b) -> length (filter f l) = length (filter g l).
Proof.
  intros E. now rewrite (filter_ext f g E).
Qed.

Lemma map_nth_seq (t : list Z) :
  map (fun b => nth b t 0%Z) (seq 0 (length t)) = t.
Proof.
  induction t as [|v t IH]; [reflexivity|].
  cbn [length seq map nth]. rewrite <- seq_shift, map_map. cbn [nth].
  now rewrite IH.
Qed.

Lemma shifted_pairs (c : bool -> bool) (h : Z) (t : list Z) (l1 l2 : list nat) :
  length (filter (fun p => canonical p && c (same_source (h :: t) p))
                 (list_prod (map S l1) (0 :: map S l2)))
  = length (filter (fun p => canonical p && c (same_source t p))
                   (list_prod l1 l2)).
Proof.
  induction l1 as [|a l1 IH]; [reflexivity|].
  cbn [map list_prod]. rewrite !filter_app, !length_app, IH. f_equal.
  cbn [filter canonical fst snd Nat.ltb Nat.leb andb].
  rewrite map_map, !filter_map_length. reflexivity.
Qed.

Lemma candidates_count (c : bool -> bool) (y : list Z) :
  length (filter (fun p => canonical p && c (same_source y p)) (grid (length y)))
  = later_matches c y.
Proof.
  induction y as [|h t IH]; [reflexivity|].
  unfold grid in *. cbn [length later_matches].
  rewrite <- IH. cbn [seq]. rewrite <- seq_shift.
  change (list_prod (0 :: map S (seq 0 (length t))) (0 :: map S (seq 0 (length t))))
    with (map (pair 0) (0 :: map S (seq 0 (length t)))
          ++ list_prod (map S (seq 0 (length t))) (0 :: map S (seq 0 (length t)))).
  rewrite filter_app, length_app, shifted_pairs. f_equal.
  cbn [map filter canonical fst snd Nat.ltb Nat.leb andb].
  rewrite map_map, filter_map_length.
  rewrite <- (map_nth_seq t) at 2. rewrite filter_map_length.
  reflexivity.
Qed.

Lemma filter_all {B : Type} (f : B -> bool) (l : list B) :
  (forall b, In b l -> f b = true) -> filter f l = l.
Proof.
  induction l as [|b l IH]; intros Hf; [reflexivity|]. simpl.
  rewrite (Hf b (or_introl eq_refl)), IH; [reflexivity|].
  intros; apply Hf; now right.
Qed.

Lemma filter_none {B : Type} (f : B -> bool) (l : list B) :
  (forall b, In b l -> f b = false) -> filter f l = [].
Proof.
  induction l as [|b l IH]; intros Hf; [reflexivity|]. simpl.
  rewrite (Hf b (or_introl eq_refl)). apply IH.
  intros; apply Hf; now right.
Qed.

Lemma filter_eqb_count (v : Z) (t : list Z) :
  length (filter (fun w => (v =? w)%Z) t) = count_occ Z.eq_dec t v.
Proof.
  induction t as [|w t IH]; [reflexivity|]. simpl.
  destruct (Z.eq_dec w v) as [E|E]; destruct (Z.eqb_spec v w) as [E'|E'];
    simpl; congruence.
Qed.

Lemma filter_negb_length {B : Type} (f : B -> bool) (l : list B) :
  length (filter (fun b => negb (f b)) l) = length l - length (filter f l).
Proof.
  induction l as [|b l IH]; [reflexivity|]. cbn [filter].
  pose proof (filter_length_le f l).
  destruct (f b); cbn [negb length]; rewrite IH; lia.
Qed.

Lemma two_classes_length (a b : Z) (y : list Z) :
  a <> b -> (forall v, In v y -> v = a \/ v = b) ->
  length y = count_occ Z.eq_dec y a + count_occ Z.eq_dec y b.
Proof.
  intros Hab. induction y as [|h t IH]; intros Hy; [reflexivity|].
  simpl. rewrite IH by (intros; apply Hy; now right).
  destruct (Hy h (or_introl eq_refl)) as [-> | ->];
    destruct (Z.eq_dec a a), (Z.eq_dec b b), (Z.eq_dec a b), (Z.eq_dec b a);
    try congruence; lia.
Qed.

Lemma choose2_succ (k : nat) : choose2 (S k) = choose2 k + k.
Proof.
  unfold choose2. destruct k as [|k]; [reflexivity|].
  replace (S (S k) * (S (S k) - 1)) with (S k * (S k - 1) + S k * 2) by nia.
  apply Nat.div_add. lia.
Qed.

Lemma later_matches_two (a b : Z) (y : list Z) :
  a <> b -> (forall v, In v y -> v = a \/ v = b) ->
  later_matches (fun x => x) y
  = choose2 (count_occ Z.eq_dec y a) + choose2 (count_occ Z.eq_dec y b) /\
  later_matches negb y = count_occ Z.eq_dec y a * count_occ Z.eq_dec y b.
Proof.
  intros Hab. induction y as [|h t IH]; intros Hy; [split; reflexivity|].
  destruct IH as [IHs IHd]; [intros; apply Hy; now right|].
  assert (Ht : forall v, In v t -> v = a \/ v = b) by (intros; apply Hy; now right).
  pose proof (@two_classes_length a b t Hab Ht) as Hlen.
  cbn [later_matches]. rewrite filter_negb_length, !filter_eqb_count, IHs, IHd.
  cbn [count_occ].
  destruct (Hy h (or_introl eq_refl)) as [-> | ->];
    destruct (Z.eq_dec a a), (Z.eq_dec b b), (Z.eq_dec a b), (Z.eq_dec b a);
    try congruence; rewrite ?choose2_succ; split; nia.
Qed.

End Counting.

(** ** What [transform] returns, and when *)

Section Runs.
Context {R : Random.source} {A : Type}.

Lemma transform_short_labels (self : InstancePairing.t) (X : matrix A)
  (y : list Z) (s : Random.state R) :
  length y < nrows X ->
  InstancePairing.transform self X y s = Raise IndexError.
Proof.
  intros Hy. unfold InstancePairing.transform, Random.bind, Random.lift.
  rewrite all_pairs_grid, take_labels_short by exact Hy. reflexivity.
Qed.

Lemma transform_negative_ss (self : InstancePairing.t) (X : matrix A)
  (y : list Z) (s : Random.state R) (l : Z) :
  nrows X <= length y ->
  InstancePairing._ss_limit self = Some l -> (l < 0)%Z ->
  InstancePairing.transform self X y s = Raise ValueError.
Proof.
  intros Hy Hss Hl. read_labels Hy.
  rewrite Hss.
  match goal with |- context [(l <? ?n)%Z] => destruct (Z.ltb_spec l n); [|lia] end.
  now rewrite choice_negative.
Qed.

Lemma transform_negative_ds (self : InstancePairing.t) (X : matrix A)
  (y : list Z) (s : Random.state R) (l : Z) :
  nrows X <= length y ->
  match InstancePairing._ss_limit self with
  | Some l => (0 <= l)%Z
  | None => True
  end ->
  InstancePairing._ds_limit self = InstancePairing.DsInt l -> (l < 0)%Z ->
  InstancePairing.transform self X y s = Raise ValueError.
Proof.
  intros Hy Hss Hds Hl. read_labels Hy.
  rewrite masks_same, masks_diff.
  destruct (@same_stage R _ (fun p => canonical p && same_source y p) (grid (nrows X))
              (InstancePairing._ss_limit self) s Hss)
    as (rows_same & sel_same & s1 & E1 & T1 & K1).
  rewrite E1, Hds.
  match goal with |- context [(l <? ?n)%Z] => destruct (Z.ltb_spec l n); [|lia] end.
  now rewrite choice_negative.
Qed.

(** [transform] returns only on labels that cover the rows and limits that
    are not negative. *)
Lemma transform_Ok_inv (self : InstancePairing.t) (X : matrix A) (y : list Z)
  (s : Random.state R) r :
  InstancePairing.transform self X y s = Ok r ->
  nrows X <= length y /\ limits_ok self.
Proof.
  intros E.
  destruct (Nat.le_gt_cases (nrows X) (length y)) as [Hy|Hy].
  2:{ rewrite transform_short_labels in E by exact Hy. discriminate. }
  split; [exact Hy|]. unfold limits_ok.
  destruct (InstancePairing._ss_limit self) as [l|] eqn:Hss.
  - destruct (Z.le_gt_cases 0 l) as [Hl|Hl].
    2:{ rewrite (@transform_negative_ss self X y s l Hy Hss) in E by lia. discriminate. }
    split; [exact Hl|].
    destruct (InstancePairing._ds_limit self) as [| |l'] eqn:Hds; try exact I.
    destruct (Z.le_gt_cases 0 l') as [Hl'|Hl']; [exact Hl'|].
    rewrite (@transform_negative_ds self X y s l' Hy) in E;
      [discriminate|now rewrite Hss|exact Hds|lia].
  - split; [exact I|].
    destruct (InstancePairing._ds_limit self) as [| |l'] eqn:Hds; try exact I.
    destruct (Z.le_gt_cases 0 l') as [Hl'|Hl']; [exact Hl'|].
    rewrite (@transform_negative_ds self X y s l' Hy) in E;
      [discriminate|now rewrite Hss|exact Hds|lia].
Qed.

(** The facts about a run that the properties below rest on. *)
Lemma transform_facts (self : InstancePairing.t) (X : matrix A) (y : list Z)
  (s : Random.state R) :
  nrows X <= length y ->
  limits_ok self ->
  exists out s' sel_same sel_diff,
    InstancePairing.transform self X y s = Ok (out, s') /\
    InstancePairing.pairing (fst out) = Some (table_of out) /\
    table_of out = sel_same ++ sel_diff /\
    labels_of out
    = repeat 1%Z (length sel_same) ++ repeat 0%Z (length sel_diff) /\
    kept (InstancePairing._ss_limit self) (same_candidates y (nrows X)) sel_same /\
    kept (effective_ds_limit self (length sel_same))
         (diff_candidates y (nrows X)) sel_diff.
Proof.
  intros Hy Hl.
  destruct (@transform_run R A self X y s Hy Hl) as (sel_same & sel_diff & X' & s' & E & K1 & K2 & _).
  eexists _, s', sel_same, sel_diff. split; [exact E|].
  unfold table_of, labels_of. cbn [fst snd InstancePairing.pairing]. auto.
Qed.

Lemma count_labels (a b : nat) :
  count_occ Z.eq_dec (repeat 1%Z a ++ repeat 0%Z b) 1%Z = a /\
  count_occ Z.eq_dec (repeat 1%Z a ++ repeat 0%Z b) 0%Z = b.
Proof.
  rewrite !count_occ_app.
  rewrite (count_occ_repeat_eq Z.eq_dec a (eq_refl 1%Z)).
  rewrite (count_occ_repeat_eq Z.eq_dec b (eq_refl 0%Z)).
  rewrite (@count_occ_repeat_neq _ Z.eq_dec 1%Z 0%Z b) by discriminate.
  rewrite (@count_occ_repeat_neq _ Z.eq_dec 0%Z 1%Z a) by discriminate.
  lia.
Qed.

Lemma kept_canonical (lim1 lim2 : option Z) (y : list Z) (n : nat)
  (sel_same sel_diff : list (nat * nat)) :
  kept lim1 (same_candidates y n) sel_same ->
  kept lim2 (diff_candidates y n) sel_diff ->
  canonical_table (sel_same ++ sel_diff).
Proof.
  intros K1 K2.
  assert (Hord : forall p, In p (sel_same ++ sel_diff) -> fst p < snd p).
  { intros p Hp. apply in_app_or in Hp. destruct Hp as [Hp|Hp].
    - eapply kept_In in Hp; [|exact K1].
      apply (candidates_in_grid y n (fun b => b)) in Hp. tauto.
    - eapply kept_In in Hp; [|exact K2].
      apply (candidates_in_grid y n negb) in Hp. tauto. }
  assert (Hnd : NoDup (sel_same ++ sel_diff)).
  { apply NoDup_app.
    - eapply kept_NoDup; [exact K1|]. apply NoDup_filter, grid_NoDup.
    - eapply kept_NoDup; [exact K2|]. apply NoDup_filter, grid_NoDup.
    - intros p H1 H2.
      eapply kept_In in H1; [|exact K1]. eapply kept_In in H2; [|exact K2].
      apply (candidates_in_grid y n (fun b => b)) in H1.
      apply (candidates_in_grid y n negb) in H2.
      destruct H1 as (_ & _ & H1). destruct H2 as (_ & _ & H2).
      rewrite H1 in H2. discriminate. }
  split.
  - intros k i j Hk. apply nth_error_In in Hk. apply (Hord (i, j) Hk).
  - intros k k' i j i' j' Hne Hk Hk' [[-> ->]|[-> ->]].
    + apply Hne. apply (proj1 (NoDup_nth_error _) Hnd).
      * apply nth_error_Some. congruence.
      * congruence.
    + apply nth_error_In in Hk, Hk'. apply Hord in Hk, Hk'. simpl in *. lia.
Qed.

End Runs.

(** C4: whenever [transform] returns, every row (i, j) of the pairing table
    it leaves in the engine has i < j and no two rows hold the same
    unordered pair; and it does return whenever the labels cover the rows
    and no limit is negative. *)
Theorem pairing_table_canonical (R : Random.source) (A : Type)
  (self : InstancePairing.t) (X : matrix A) (y : list Z) (s : Random.state R) :
  (nrows X <= length y -> limits_ok self ->
   exists out s', InstancePairing.transform self X y s = Ok (out, s')) /\
  (forall out s',
      InstancePairing.transform self X y s = Ok (out, s') ->
      InstancePairing.pairing (fst out) = Some (table_of out) /\
      canonical_table (table_of out)).
Proof.
  split.
  - intros Hy Hl.
    destruct (@transform_facts R A self X y s Hy Hl) as (out & s' & _ & _ & E & _).
    now exists out, s'.
  - intros out s' E. destruct (transform_Ok_inv _ _ _ _ E) as [Hy Hl].
    destruct (@transform_facts R A self X y s Hy Hl)
      as (out0 & s0 & sel_same & sel_diff & E0 & Hp & Ht & _ & K1 & K2).
    rewrite E0 in E. injection E as <- _. split; [exact Hp|].
    rewrite Ht. eapply kept_canonical; eassumption.
Qed.

Lemma pairing_table_canonical_witness :
  exists out s',
    InstancePairing.transform (R := Random.reversing_source)
      (InstancePairing.init (Some 1%Z) (InstancePairing.DsInt 2%Z))
      (mx [[1]; [2]; [3]; [4]]%Z) [0; 0; 1; 1]%Z tt = Ok (out, s') /\
    canonical_table (table_of out).
Proof.
  destruct (proj1 (@pairing_table_canonical Random.reversing_source Z
                     (InstancePairing.init (Some 1%Z) (InstancePairing.DsInt 2%Z))
                     (mx [[1]; [2]; [3]; [4]]%Z) [0; 0; 1; 1]%Z tt))
    as (out & s' & E).
  - vm_compute. lia.
  - vm_compute. split; discriminate.
  - exists out, s'. split; [exact E|].
    apply (proj2 (@pairing_table_canonical Random.reversing_source Z
                    (InstancePairing.init (Some 1%Z) (InstancePairing.DsInt 2%Z))
                    (mx [[1]; [2]; [3]; [4]]%Z) [0; 0; 1; 1]%Z tt) out s' E).
Defined.

(** C1 (as the code has it): in balanced mode, on labels that cover the
    rows and with a same-source limit that is not negative, [transform]
    returns as many different-source pairs as the smaller of the number of
    same-source pairs it returns and the number of different-source
    candidate pairs. *)
Theorem balanced_counts (R : Random.source) (A : Type)
  (self : InstancePairing.t) (X : matrix A) (y : list Z) (s : Random.state R) :
  InstancePairing._ds_limit self = InstancePairing.DsBalanced ->
  nrows X <= length y ->
  limits_ok self ->
  exists out s',
    InstancePairing.transform self X y s = Ok (out, s') /\
    count_diff out
    = Nat.min (count_same out) (length (diff_candidates y (nrows X))).
Proof.
  intros Hb Hy Hl.
  destruct (@transform_facts R A self X y s Hy Hl)
    as (out & s' & sel_same & sel_diff & E & _ & _ & Hlab & _ & K2).
  exists out, s'. split; [exact E|].
  unfold count_diff, count_same. rewrite Hlab.
  destruct (count_labels (length sel_same) (length sel_diff)) as [-> ->].
  unfold effective_ds_limit, kept in K2. rewrite Hb in K2.
  destruct (Z.ltb_spec (Z.of_nat (length sel_same))
              (Z.of_nat (length (diff_candidates y (nrows X))))) as [Hlt|Hge].
  - destruct K2 as [_ K2]. lia.
  - subst sel_diff. lia.
Qed.

Lemma balanced_counts_witness :
  exists out s',
    InstancePairing.transform (R := Random.reversing_source)
      (InstancePairing.init (Some 2%Z) InstancePairing.DsBalanced)
      (mx [[1]; [2]; [3]; [4]; [5]]%Z) [0; 0; 0; 1; 1]%Z tt = Ok (out, s') /\
    count_diff out
    = Nat.min (count_same out) (length (diff_candidates [0; 0; 0; 1; 1]%Z 5)).
Proof.
  apply (@balanced_counts Random.reversing_source Z
           (InstancePairing.init (Some 2%Z) InstancePairing.DsBalanced)
           (mx [[1]; [2]; [3]; [4]; [5]]%Z) [0; 0; 0; 1; 1]%Z tt).
  - reflexivity.
  - vm_compute. lia.
  - vm_compute. split; [discriminate|exact I].
Defined.

(** C1 as stated fails: with four rows of one class and one row of another,
    balanced mode returns 6 same-source pairs and only the 4 different-source
    pairs there are. *)
Lemma balanced_counts_counterexample :
  ~ balanced_pairs_equal (R := Random.identity_source)
      (InstancePairing.init None InstancePairing.DsBalanced)
      (mx [[1]; [2]; [3]; [4]; [5]]%Z) [0; 0; 0; 0; 1]%Z tt.
Proof.
  intros (out & s' & E & Hc). vm_compute in E. injection E as <- _.
  vm_compute in Hc. discriminate Hc.
Qed.

(** C5: without limits, on labels (one per row) with exactly two distinct
    values [a] and [b], [transform] returns C(n_a, 2) + C(n_b, 2) pairs
    labelled 1 and n_a * n_b pairs labelled 0, where n_a and n_b are the
    numbers of rows of the two classes; the pairs labelled 1 are the rows of
    the table whose two members have one label, the pairs labelled 0 the
    rows whose members have different labels. *)
Theorem complete_pairing (R : Random.source) (A : Type)
  (X : matrix A) (y : list Z) (s : Random.state R) (a b : Z) :
  length y = nrows X ->
  a <> b ->
  (forall v, In v y <-> v = a \/ v = b) ->
  exists out s',
    InstancePairing.transform
      (InstancePairing.init None InstancePairing.DsNone) X y s = Ok (out, s') /\
    count_same out
    = choose2 (count_occ Z.eq_dec y a) + choose2 (count_occ Z.eq_dec y b) /\
    count_diff out = count_occ Z.eq_dec y a * count_occ Z.eq_dec y b /\
    length (filter (same_source y) (table_of out)) = count_same out /\
    length (filter (fun p => negb (same_source y p)) (table_of out))
    = count_diff out.
Proof.
  intros Hy Hab Hmem.
  destruct (@transform_facts R A (InstancePairing.init None InstancePairing.DsNone)
              X y s) as (out & s' & sel_same & sel_diff & E & _ & Ht & Hlab & K1 & K2).
  { lia. }
  { split; exact I. }
  exists out, s'. split; [exact E|].
  unfold count_same, count_diff. rewrite Hlab, Ht, !filter_app, !length_app.
  destruct (count_labels (length sel_same) (length sel_diff)) as [-> ->].
  cbn in K1, K2. subst sel_same sel_diff.
  unfold same_candidates, diff_candidates.
  rewrite (filter_all (same_source y)), (filter_none (same_source y)).
  2:{ intros p Hp. apply (candidates_in_grid y (nrows X) negb) in Hp.
      now apply negb_true_iff. }
  2:{ intros p Hp. now apply (candidates_in_grid y (nrows X) (fun x => x)) in Hp. }
  rewrite (filter_none (fun p => negb (same_source y p))),
          (filter_all (fun p => negb (same_source y p))).
  2:{ intros p Hp. now apply (candidates_in_grid y (nrows X) negb) in Hp. }
  2:{ intros p Hp. apply (candidates_in_grid y (nrows X) (fun x => x)) in Hp.
      apply negb_false_iff. tauto. }
  rewrite <- Hy.
  rewrite (candidates_count (fun x => x) y), (candidates_count negb y).
  destruct (@later_matches_two a b y Hab) as [-> ->]; [intros v; apply Hmem|].
  cbn [length]. repeat split; lia.
Qed.

Lemma complete_pairing_witness :
  exists out s',
    InstancePairing.transform (R := Random.identity_source)
      (InstancePairing.init None InstancePairing.DsNone)
      (mx [[1; 2]; [3; 4]; [10; 20]]%Z) [0; 0; 1]%Z tt = Ok (out, s') /\
    count_same out = 1 /\ count_diff out = 2.
Proof.
  destruct (@complete_pairing Random.identity_source Z
              (mx [[1; 2]; [3; 4]; [10; 20]]%Z) [0; 0; 1]%Z tt 0%Z 1%Z)
    as (out & s' & E & Hs & Hd & _).
  - reflexivity.
  - lia.
  - intros v. simpl. lia.
  - exists out, s'. rewrite Hs, Hd. auto.
Defined.

Section Classification.
Context {A : Type}.

Lemma label_at_nth_error (y : list Z) (i : nat) :
  i < length y -> nth_error y i = Some (label_at y i).
Proof.
  intros Hi. unfold label_at. now apply nth_error_nth'.
Qed.

Lemma labels_nth_same (a b k : nat) :
  k < a -> nth_error (repeat 1%Z a ++ repeat 0%Z b) k = Some 1%Z.
Proof.
  intros Hk. rewrite nth_error_app1 by now rewrite repeat_length.
  now apply nth_error_repeat.
Qed.

Lemma labels_nth_diff (a b k : nat) :
  a <= k < a + b -> nth_error (repeat 1%Z a ++ repeat 0%Z b) k = Some 0%Z.
Proof.
  intros Hk. rewrite nth_error_app2 by (rewrite repeat_length; lia).
  rewrite repeat_length. apply nth_error_repeat. lia.
Qed.

End Classification.

(** C9: on labels (one per row) with any number of distinct values, more
    than two included, and limits that are not negative, [transform]
    returns; every row (i, j) of its table has i < j, and its label is 1
    exactly when y[i] = y[j] and 0 otherwise; without limits every pair
    i < j of rows is in the table. *)
Theorem multiclass_pairing (R : Random.source) (A : Type)
  (self : InstancePairing.t) (X : matrix A) (y : list Z) (s : Random.state R) :
  length y = nrows X ->
  limits_ok self ->
  exists out s',
    InstancePairing.transform self X y s = Ok (out, s') /\
    length (labels_of out) = length (table_of out) /\
    (forall k i j,
        nth_error (table_of out) k = Some (i, j) ->
        i < j < nrows X /\
        exists li lj,
          nth_error y i = Some li /\ nth_error y j = Some lj /\
          nth_error (labels_of out) k
          = Some (if (li =? lj)%Z then 1%Z else 0%Z)) /\
    (InstancePairing._ss_limit self = None ->
     InstancePairing._ds_limit self = InstancePairing.DsNone ->
     forall i j, i < j < nrows X -> In (i, j) (table_of out)).
Proof.
  intros Hy Hl.
  destruct (@transform_facts R A self X y s) as
    (out & s' & sel_same & sel_diff & E & _ & Ht & Hlab & K1 & K2); [lia|exact Hl|].
  exists out, s'. split; [exact E|]. rewrite Ht, Hlab. split; [|split].
  - now rewrite !length_app, !repeat_length.
  - intros k i j Hk.
    assert (Hklt : k < length (sel_same ++ sel_diff))
      by (apply nth_error_Some; congruence).
    rewrite length_app in Hklt.
    destruct (Nat.lt_ge_cases k (length sel_same)) as [Hks|Hks].
    + rewrite nth_error_app1 in Hk by exact Hks.
      apply nth_error_In in Hk. eapply kept_In in Hk; [|exact K1].
      apply (candidates_in_grid y (nrows X) (fun b => b)) in Hk.
      destruct Hk as (Hij & Hj & Hsame). cbn [fst snd] in *.
      split; [lia|]. exists (label_at y i), (label_at y j).
      rewrite !label_at_nth_error by lia. unfold same_source in Hsame.
      cbn [fst snd] in Hsame. rewrite Hsame.
      rewrite labels_nth_same by exact Hks. auto.
    + rewrite nth_error_app2 in Hk by exact Hks.
      apply nth_error_In in Hk. eapply kept_In in Hk; [|exact K2].
      apply (candidates_in_grid y (nrows X) negb) in Hk.
      destruct Hk as (Hij & Hj & Hdiff). cbn [fst snd] in *.
      split; [lia|]. exists (label_at y i), (label_at y j).
      rewrite !label_at_nth_error by lia. unfold same_source in Hdiff.
      cbn [fst snd] in Hdiff. apply negb_true_iff in Hdiff. rewrite Hdiff.
      rewrite labels_nth_diff by lia. auto.
  - intros Hss Hds i j Hij. unfold effective_ds_limit in K2.
    rewrite Hss in K1. rewrite Hds in K2. cbn in K1, K2. subst sel_same sel_diff.
    apply in_or_app. unfold same_candidates, diff_candidates.
    rewrite !filter_In, !grid_In. unfold canonical. cbn [fst snd].
    destruct (Nat.ltb_spec i j); [|lia].
    destruct (same_source y (i, j)); [left|right]; (split; [lia|reflexivity]).
Qed.

Lemma multiclass_pairing_witness :
  exists out s',
    InstancePairing.transform (R := Random.reversing_source)
      (InstancePairing.init (Some 1%Z) InstancePairing.DsNone)
      (mx [[1]; [2]; [3]; [4]]%Z) [5; 7; 5; 9]%Z tt = Ok (out, s') /\
    length (labels_of out) = length (table_of out).
Proof.
  destruct (@multiclass_pairing Random.reversing_source Z
              (InstancePairing.init (Some 1%Z) InstancePairing.DsNone)
              (mx [[1]; [2]; [3]; [4]]%Z) [5; 7; 5; 9]%Z tt)
    as (out & s' & E & Hlen & _).
  - reflexivity.
  - vm_compute. split; [discriminate|exact I].
  - exists out, s'. auto.
Defined.

(** The example of the specification: three rows of two classes. *)
Example pairing_scenario :
  InstancePairing.transform (R := Random.identity_source)
    (InstancePairing.init None InstancePairing.DsNone)
    (mx [[1; 2]; [3; 4]; [10; 20]]%Z) [0; 0; 1]%Z tt
  = Ok ((InstancePairing.Make None InstancePairing.DsNone
           (Some [(0, 1); (0, 2); (1, 2)]),
         (NdArray [3; 2; 2] [1; 3; 2; 4; 1; 10; 2; 20; 3; 10; 4; 20]%Z,
          [1; 0; 0]%Z)),
        tt).
Proof. reflexivity. Qed.

(** The paired array that [transform] returns is accepted by the reducer. *)
Example pairing_then_abs_diff :
  AbsDiffTransformer.transform
    (NdArray [3; 2; 2] [1; 3; 2; 4; 1; 10; 2; 20; 3; 10; 4; 20]%Z)
  = Ok (NdArray [3; 2] [2; 2; 9; 18; 7; 16]%Z).
Proof. reflexivity. Qed.

(** The reducer on an array of doubles. *)
Example abs_diff_float64 :
  AbsDiffTransformer.transform
    (NdArray [1; 2; 2] [0.5; 2.25; 1.5; -2.25]%float)
  = Ok (NdArray [1; 2] [1.75; 3.75]%float).
Proof. vm_compute. reflexivity. Qed.

(** * Further properties of the code *)

(** ** Outcomes of [Xn_to_Xy] *)

Section GroupedToFlatOutcomes.
Context {A : Type}.

Lemma mapM_Ok_inv {B C : Type} (f : B -> result C) (l : list B) (r : list C) :
  mapM f l = Ok r -> forall b, In b l -> exists c, f b = Ok c.
Proof.
  revert r. induction l as [|b l IH]; simpl; intros r E b' Hin; [contradiction|].
  destruct (f b) as [c|e] eqn:Eb; simpl in E; [|discriminate].
  destruct (mapM f l) as [cs|e] eqn:El; simpl in E; [|discriminate].
  destruct Hin as [<-|Hin]; [eauto|]. eapply IH; [reflexivity|exact Hin].
Qed.

Lemma mapM_length {B C : Type} (f : B -> result C) (l : list B) (r : list C) :
  mapM f l = Ok r -> length r = length l.
Proof.
  revert r. induction l as [|b l IH]; simpl; intros r E.
  - now injection E as <-.
  - destruct (f b) as [c|e]; simpl in E; [|discriminate].
    destruct (mapM f l) as [cs|e]; simpl in E; [|discriminate].
    injection E as <-. simpl. f_equal. now apply IH.
Qed.

Lemma mapM_Raise_inv {B C : Type} (f : B -> result C) (l : list B) (e : exn) :
  mapM f l = Raise e -> exists b, In b l /\ f b = Raise e.
Proof.
  induction l as [|b l IH]; simpl; intros E; [discriminate|].
  destruct (f b) as [c|e'] eqn:Eb; simpl in E.
  - destruct (mapM f l) as [cs|e'] eqn:El; simpl in E; [discriminate|].
    injection E as ->. destruct (IH eq_refl) as (b' & Hin & Hb'). eauto.
  - injection E as ->. eauto.
Qed.

Lemma enumerate_last (Xn : list (matrix A)) (G : matrix A) (k : nat) :
  nth_error Xn k = Some G -> In (Z.of_nat k, G) (enumerate Xn).
Proof.
  intros Hk. eapply nth_error_In. apply enumerate_nth. exact Hk.
Qed.

Lemma concatenate_Ok_inv (Xn : list (matrix A)) (X : matrix A) :
  concatenate Xn = Ok X ->
  exists X0 rest,
    Xn = X0 :: rest /\ (forall G, In G rest -> ncols G = ncols X0).
Proof.
  unfold concatenate. destruct Xn as [|X0 rest]; [discriminate|].
  destruct (forallb (fun G => ncols G =? ncols X0) rest) eqn:Hc; [|discriminate].
  intros _. exists X0, rest. split; [reflexivity|].
  intros G HG. rewrite forallb_forall in Hc. now apply Nat.eqb_eq, Hc.
Qed.

End GroupedToFlatOutcomes.

(** X1: [Xn_to_Xy] returns exactly when there is at least one group, all
    groups have the column count of the first, and, where NumPy keeps the
    [int8] type of the labels, there are at most 128 groups. *)
Theorem Xn_to_Xy_returns_iff (A : Type) (numpy : casting) (Xn : list (matrix A)) :
  (exists r, Xn_to_Xy numpy Xn = Ok r) <->
  (exists X0 rest,
      Xn = X0 :: rest /\
      (forall G, In G rest -> ncols G = ncols X0) /\
      (numpy = ValueBased \/ length Xn <= 128)).
Proof.
  split.
  - intros [r E]. unfold Xn_to_Xy in E.
    destruct (concatenate Xn) as [X|e] eqn:Ec; [|discriminate]. cbn [Py.bind] in E.
    destruct (concatenate_Ok_inv _ Ec) as (X0 & rest & -> & Hcols).
    exists X0, rest. split; [reflexivity|]. split; [exact Hcols|].
    destruct numpy; [now left|right].
    destruct (mapM _ (enumerate (X0 :: rest))) as [ys|e] eqn:Em; [|discriminate].
    destruct (Nat.le_gt_cases (length (X0 :: rest)) 128) as [Hle|Hgt]; [exact Hle|].
    exfalso.
    destruct (nth_error (X0 :: rest) 128) as [G|] eqn:HG.
    2:{ apply nth_error_None in HG. lia. }
    pose proof (enumerate_last _ _ HG) as Hin.
    destruct (mapM_Ok_inv _ _ Em _ Hin) as [c Hc].
    vm_compute in Hc. discriminate Hc.
  - intros (X0 & rest & -> & Hcols & Hlen). eexists.
    now apply Xn_to_Xy_ok.
Qed.

Lemma Xn_to_Xy_returns_iff_witness :
  (exists r, Xn_to_Xy Weak [mx [[1; 2]]; mx [[3; 4]; [5; 6]]]%Z = Ok r) /\
  ~ (exists r, Xn_to_Xy Weak [mx [[1; 2]]; mx [[3]]]%Z = Ok r).
Proof.
  split.
  - apply (proj2 (Xn_to_Xy_returns_iff Weak [mx [[1; 2]]; mx [[3; 4]; [5; 6]]]%Z)).
    exists (mx [[1; 2]]%Z), [mx [[3; 4]; [5; 6]]%Z]. split; [reflexivity|].
    split; [|right; simpl; lia].
    simpl. intros G [<-|[]]. reflexivity.
  - intros H.
    apply (proj1 (Xn_to_Xy_returns_iff Weak [mx [[1; 2]]; mx [[3]]]%Z)) in H.
    destruct H as (X0 & rest & E & Hcols & _). injection E as <- <-.
    specialize (Hcols (mx [[3]]%Z) (or_introl eq_refl)). vm_compute in Hcols.
    discriminate Hcols.
Defined.

Section GroupedToFlatErrors.
Context {A : Type}.

Lemma forallb_false_witness {B : Type} (f : B -> bool) (l : list B) :
  forallb f l = false -> exists b, In b l /\ f b = false.
Proof.
  induction l as [|b l IH]; simpl; [discriminate|].
  destruct (f b) eqn:Eb; simpl.
  - intros E. destruct (IH E) as (b' & Hin & Hb'). eauto.
  - eauto.
Qed.

Lemma concatenate_Raise_inv (Xn : list (matrix A)) (e : exn) :
  concatenate Xn = Raise e ->
  e = ValueError /\
  (Xn = [] \/
   exists X0 rest G, Xn = X0 :: rest /\ In G rest /\ ncols G <> ncols X0).
Proof.
  unfold concatenate. destruct Xn as [|X0 rest].
  - intros E. injection E as <-. auto.
  - destruct (forallb (fun G => ncols G =? ncols X0) rest) eqn:Hc; [discriminate|].
    intros E. injection E as <-. split; [reflexivity|]. right.
    destruct (forallb_false_witness _ _ Hc) as (G & HG & HGc).
    exists X0, rest, G. split; [reflexivity|]. split; [exact HG|].
    now apply Nat.eqb_neq.
Qed.

End GroupedToFlatErrors.

(** X2: when [Xn_to_Xy] fails it raises ValueError, on an empty sequence or
    on a group whose column count differs from the first group's, or it
    raises OverflowError, where NumPy keeps the [int8] type of the labels
    and there are more than 128 groups. It never fails otherwise. *)
Theorem Xn_to_Xy_error_kinds (A : Type) (numpy : casting) (Xn : list (matrix A))
  (e : exn) :
  Xn_to_Xy numpy Xn = Raise e ->
  (e = ValueError /\
   (Xn = [] \/
    exists X0 rest G, Xn = X0 :: rest /\ In G rest /\ ncols G <> ncols X0)) \/
  (e = OverflowError /\ numpy = Weak /\ 128 < length Xn).
Proof.
  unfold Xn_to_Xy. intros E.
  destruct (concatenate Xn) as [X|e'] eqn:Ec.
  2:{ cbn [Py.bind] in E. injection E as ->. left.
      now apply concatenate_Raise_inv. }
  cbn [Py.bind] in E. right.
  destruct (mapM _ (enumerate Xn)) as [ys|e'] eqn:Em; cbn [Py.bind] in E.
  - exfalso. destruct (concatenate_Ok_inv _ Ec) as (X0 & rest & -> & _).
    apply mapM_length in Em. unfold enumerate in Em.
    rewrite length_combine, length_map, length_seq, Nat.min_id in Em.
    destruct ys; [discriminate Em|discriminate E].
  - injection E as ->. apply mapM_Raise_inv in Em.
    destruct Em as ([i G] & Hin & Hi). apply enumerate_In in Hin.
    unfold ones_int8_times in Hi. cbn [fst snd] in Hi.
    destruct numpy; [discriminate|].
    unfold int8_min, int8_max in Hi.
    destruct (Z.leb_spec (-128) i); [|lia].
    destruct (Z.leb_spec i 127); [discriminate|].
    cbn [andb] in Hi. injection Hi as <-. repeat split. lia.
Qed.

Lemma Xn_to_Xy_error_kinds_witness :
  (OverflowError = ValueError /\
   (repeat (mx [[0]]%Z) 130 = [] \/
    exists X0 rest G,
      repeat (mx [[0]]%Z) 130 = X0 :: rest /\ In G rest /\ ncols G <> ncols X0)) \/
  (OverflowError = OverflowError /\ Weak = Weak /\
   128 < length (repeat (mx [[0]]%Z) 130)).
Proof.
  apply (@Xn_to_Xy_error_kinds Z Weak (repeat (mx [[0]]%Z) 130) OverflowError).
  vm_compute. reflexivity.
Defined.

(** ** More on [Xy_to_Xn] *)

Section FlatToGroupedMore.
Context {A : Type}.

Lemma Xy_to_Xn_Ok_inv (X : matrix A) (y : list Z) (Xn : list (matrix A)) :
  Xy_to_Xn X y = Ok Xn ->
  nrows X = length y /\ exists lo hi, unique y = [lo; hi].
Proof.
  intros E.
  destruct (Nat.eq_dec (nrows X) (length y)) as [He|Hne].
  2:{ rewrite Xy_to_Xn_shape_error in E by exact Hne. discriminate. }
  split; [exact He|].
  destruct (Nat.eq_dec (distinct_values y) 2) as [Hd|Hd].
  - unfold distinct_values in Hd. rewrite <- unique_length in Hd.
    now apply length_two_inv.
  - rewrite Xy_to_Xn_value_error in E by assumption. discriminate.
Qed.

Lemma map_fst_combine {B C : Type} (l : list B) (l' : list C) :
  length l = length l' -> map fst (combine l l') = l.
Proof.
  revert l'. induction l as [|b l IH]; intros [|c l'] E; try discriminate; [reflexivity|].
  simpl. f_equal. apply IH. now injection E.
Qed.

Lemma filter_split_perm {B : Type} (f : B -> bool) (l : list B) :
  Permutation (filter f l ++ filter (fun b => negb (f b)) l) l.
Proof.
  induction l as [|b l IH]; [constructor|]. simpl.
  destruct (f b); simpl.
  - now constructor.
  - symmetry. apply Permutation_cons_app. now symmetry.
Qed.

Lemma rows_with_split (X : matrix A) (y : list Z) (lo hi : Z) :
  nrows X = length y -> lo <> hi ->
  (forall v, In v y -> v = lo \/ v = hi) ->
  Permutation (rows_with X y lo ++ rows_with X y hi) (rows X).
Proof.
  intros He Hne Hmem. unfold rows_with.
  rewrite <- (map_fst_combine (rows X) y He) at 3.
  rewrite <- map_app. apply Permutation_map.
  rewrite (filter_ext_in (fun ry => (snd ry =? hi)%Z)
                         (fun ry => negb (snd ry =? lo)%Z)).
  - apply filter_split_perm.
  - intros [r v] Hin. apply in_combine_r in Hin. cbn [snd].
    destruct (Hmem v Hin) as [-> | ->].
    + rewrite Z.eqb_refl. now apply Z.eqb_neq.
    + rewrite Z.eqb_refl. symmetry. apply negb_true_iff. apply Z.eqb_neq. congruence.
Qed.

Lemma rows_with_length (X : matrix A) (y : list Z) (v : Z) :
  nrows X = length y ->
  length (rows_with X y v) = count_occ Z.eq_dec y v.
Proof.
  unfold rows_with, nrows. rewrite length_map.
  generalize (rows X) as l. induction y as [|w y IH]; intros [|r l] E;
    try discriminate; [reflexivity|].
  simpl. injection E as E.
  destruct (Z.eqb_spec w v) as [Ew|Ew]; destruct (Z.eq_dec w v); try congruence;
    simpl; now rewrite IH.
Qed.

Lemma count_occ_pos (y : list Z) (v : Z) : In v y -> 0 < count_occ Z.eq_dec y v.
Proof.
  intros Hin. now apply count_occ_In.
Qed.

End FlatToGroupedMore.

(** X3: whenever [Xy_to_Xn] returns, it returns exactly two matrices, both
    with the column count of X and both with at least one row, and the two
    together hold every row of X exactly once. *)
Theorem Xy_to_Xn_partition (A : Type) (X : matrix A) (y : list Z)
  (Xn : list (matrix A)) :
  Xy_to_Xn X y = Ok Xn ->
  exists G0 G1,
    Xn = [G0; G1] /\
    ncols G0 = ncols X /\ ncols G1 = ncols X /\
    0 < nrows G0 /\ 0 < nrows G1 /\
    Permutation (rows G0 ++ rows G1) (rows X).
Proof.
  intros E. destruct (Xy_to_Xn_Ok_inv _ _ E) as (He & lo & hi & Hu).
  rewrite (Xy_to_Xn_two X y He Hu) in E. injection E as <-.
  destruct (unique_two_inv _ Hu) as [Hlt Hmem].
  eexists _, _. split; [reflexivity|]. cbn [ncols rows]. unfold nrows. cbn [rows].
  split; [reflexivity|]. split; [reflexivity|].
  rewrite !rows_with_length by exact He.
  split; [apply count_occ_pos, Hmem; auto|].
  split; [apply count_occ_pos, Hmem; auto|].
  apply rows_with_split; [exact He|lia|]. intros v Hv. now apply Hmem.
Qed.

Lemma Xy_to_Xn_partition_witness :
  exists G0 G1,
    Xy_to_Xn (mx [[1]; [2]; [3]]%Z) [7; 4; 7]%Z = Ok [G0; G1] /\
    Permutation (rows G0 ++ rows G1) [[1]; [2]; [3]]%Z.
Proof.
  destruct (@Xy_to_Xn_partition Z (mx [[1]; [2]; [3]]%Z) [7; 4; 7]%Z
              [mx [[2]]; mx [[1]; [3]]]%Z)
    as (G0 & G1 & E & _ & _ & _ & _ & HP).
  - reflexivity.
  - exists G0, G1. split; [now rewrite <- E|exact HP].
Defined.

Lemma two_groups_there_and_back (A : Type) (numpy : casting) (G0 G1 : matrix A) :
  ncols G1 = ncols G0 ->
  0 < nrows G0 ->
  0 < nrows G1 ->
  Xn_to_Xy numpy [G0; G1]
  = Ok (Matrix (ncols G0) (rows G0 ++ rows G1),
        repeat 0%Z (nrows G0) ++ repeat 1%Z (nrows G1)) /\
  Xy_to_Xn (Matrix (ncols G0) (rows G0 ++ rows G1))
           (repeat 0%Z (nrows G0) ++ repeat 1%Z (nrows G1))
  = Ok [G0; G1].
Proof.
  intros Hc H0 H1. split; [now apply flat_two|].
  rewrite Xy_to_Xn_sorted_pair with (lo := 0%Z) (hi := 1%Z).
  - unfold rows_with. cbn [rows ncols].
    rewrite !combine_app by now rewrite repeat_length.
    rewrite !filter_app, !map_app. unfold nrows.
    rewrite !filter_combine_repeat_eq.
    rewrite !filter_combine_repeat_neq by lia.
    simpl. rewrite app_nil_r. destruct G0, G1. simpl in *. now subst.
  - unfold nrows. cbn [rows]. now rewrite !length_app, !repeat_length.
  - lia.
  - intros v. now apply labels_two.
Qed.

(** X4: two non-empty groups with one column count come back from
    [Xn_to_Xy] followed by [Xy_to_Xn] exactly as they were, rows in their
    order. *)
Theorem round_trip_exact (A : Type) (numpy : casting) (G0 G1 : matrix A) :
  ncols G1 = ncols G0 ->
  0 < nrows G0 ->
  0 < nrows G1 ->
  exists X y,
    Xn_to_Xy numpy [G0; G1] = Ok (X, y) /\ Xy_to_Xn X y = Ok [G0; G1].
Proof.
  intros Hc H0 H1. eexists _, _. now apply two_groups_there_and_back.
Qed.

Lemma round_trip_exact_witness :
  exists X y,
    Xn_to_Xy ValueBased [mx [[3; 4]; [1; 2]]; mx [[10; 20]]]%Z = Ok (X, y) /\
    Xy_to_Xn X y = Ok [mx [[3; 4]; [1; 2]]; mx [[10; 20]]]%Z.
Proof.
  apply round_trip_exact.
  - reflexivity.
  - vm_compute. lia.
  - vm_compute. lia.
Defined.

(** X5: the other way round. When [Xy_to_Xn] returns groups, [Xn_to_Xy]
    accepts them and returns the rows of X regrouped (those with the lower
    label first) with the labels renumbered to 0 and 1, and [Xy_to_Xn] on
    that flat form returns the same groups again. *)
Theorem flat_round_trip (A : Type) (numpy : casting) (X : matrix A) (y : list Z)
  (Xn : list (matrix A)) :
  Xy_to_Xn X y = Ok Xn ->
  exists X' y' lo hi,
    Xn_to_Xy numpy Xn = Ok (X', y') /\
    ncols X' = ncols X /\
    Permutation (rows X') (rows X) /\
    (lo < hi)%Z /\ (forall v, In v y <-> v = lo \/ v = hi) /\
    y' = repeat 0%Z (count_occ Z.eq_dec y lo)
         ++ repeat 1%Z (count_occ Z.eq_dec y hi) /\
    Xy_to_Xn X' y' = Ok Xn.
Proof.
  intros E. destruct (Xy_to_Xn_Ok_inv _ _ E) as (He & lo & hi & Hu).
  destruct (unique_two_inv _ Hu) as [Hlt Hmem].
  rewrite (Xy_to_Xn_two X y He Hu) in E. injection E as <-.
  set (G0 := Matrix (ncols X) (rows_with X y lo)).
  set (G1 := Matrix (ncols X) (rows_with X y hi)).
  assert (H0 : nrows G0 = count_occ Z.eq_dec y lo)
    by (unfold nrows, G0; cbn [rows]; now apply rows_with_length).
  assert (H1 : nrows G1 = count_occ Z.eq_dec y hi)
    by (unfold nrows, G1; cbn [rows]; now apply rows_with_length).
  destruct (@two_groups_there_and_back A numpy G0 G1) as (Eflat & Eback).
  { reflexivity. }
  { rewrite H0. apply count_occ_pos, Hmem. auto. }
  { rewrite H1. apply count_occ_pos, Hmem. auto. }
  eexists _, _, lo, hi. split; [exact Eflat|]. cbn [ncols rows].
  split; [reflexivity|].
  split; [apply rows_with_split; [exact He|lia|intros v Hv; now apply Hmem]|].
  split; [exact Hlt|]. split; [exact Hmem|]. split; [|exact Eback].
  now rewrite H0, H1.
Qed.

Lemma flat_round_trip_witness :
  exists X' y',
    Xn_to_Xy Weak [mx [[2]]; mx [[1]; [3]]]%Z = Ok (X', y') /\
    y' = [0; 1; 1]%Z /\
    Xy_to_Xn X' y' = Ok [mx [[2]]; mx [[1]; [3]]]%Z.
Proof.
  destruct (@flat_round_trip Z Weak (mx [[1]; [2]; [3]]%Z) [7; 4; 7]%Z
              [mx [[2]]; mx [[1]; [3]]]%Z)
    as (X' & y' & lo & hi & E & _ & _ & Hlt & Hmem & Hy & Eb).
  - reflexivity.
  - exists X', y'. split; [exact E|]. split; [|exact Eb].
    vm_compute in E. injection E as _ <-. reflexivity.
Defined.

Section Relabelling.
Context {A : Type}.
Variable f : Z -> Z.
Hypothesis f_increasing : forall a b, (a < b)%Z -> (f a < f b)%Z.

Lemma increasing_ltb (a b : Z) : (f a <? f b)%Z = (a <? b)%Z.
Proof.
  destruct (Z.ltb_spec a b) as [H|H].
  - apply Z.ltb_lt. now apply f_increasing.
  - apply Z.ltb_ge. destruct (Z.eq_dec a b) as [->|Hne]; [lia|].
    assert (b < a)%Z by lia. pose proof (f_increasing H0). lia.
Qed.

Lemma increasing_eqb (a b : Z) : (f a =? f b)%Z = (a =? b)%Z.
Proof.
  destruct (Z.eqb_spec a b) as [->|Hne]; [apply Z.eqb_refl|].
  apply Z.eqb_neq.
  destruct (Z.lt_total a b) as [H|[H|H]]; [|contradiction|];
    pose proof (f_increasing H); lia.
Qed.

Lemma insert_uniq_map (v : Z) (l : list Z) :
  insert_uniq (f v) (map f l) = map f (insert_uniq v l).
Proof.
  induction l as [|h t IH]; [reflexivity|]. simpl.
  rewrite increasing_ltb, increasing_eqb.
  destruct (v <? h)%Z; [reflexivity|].
  destruct (v =? h)%Z; [reflexivity|]. simpl. now rewrite IH.
Qed.

Lemma unique_map (y : list Z) : unique (map f y) = map f (unique y).
Proof.
  induction y as [|v y IH]; [reflexivity|]. simpl.
  now rewrite IH, insert_uniq_map.
Qed.

Lemma mapM_map {B C D : Type} (g : C -> result D) (h : B -> C) (l : list B) :
  mapM g (map h l) = mapM (fun b => g (h b)) l.
Proof.
  induction l as [|b l IH]; [reflexivity|]. simpl. now rewrite IH.
Qed.

Lemma mapM_ext {B C : Type} (g g' : B -> result C) (l : list B) :
  (forall b, g b = g' b) -> mapM g l = mapM g' l.
Proof.
  intros E. induction l as [|b l IH]; [reflexivity|]. simpl.
  now rewrite E, IH.
Qed.

(** X6: [Xy_to_Xn] looks only at the order of the label values: relabelling
    through a strictly increasing function changes nothing in what it
    returns or raises. *)
Theorem Xy_to_Xn_relabel (X : matrix A) (y : list Z) :
  Xy_to_Xn X (map f y) = Xy_to_Xn X y.
Proof.
  unfold Xy_to_Xn. cbn [fst snd]. rewrite length_map.
  destruct (assert (nrows X =? length y)); [|reflexivity]. cbn [Py.bind].
  destruct (assert (1 =? 1)); [|reflexivity]. cbn [Py.bind].
  rewrite unique_map, length_map.
  destruct (assert (length (unique y) =? 2)); [|reflexivity]. cbn [Py.bind].
  rewrite mapM_map. apply mapM_ext. intros v. f_equal.
  rewrite map_map. apply map_ext. intros w. apply increasing_eqb.
Qed.

End Relabelling.

Lemma Xy_to_Xn_relabel_witness :
  Xy_to_Xn (mx [[1]; [2]; [3]]%Z) (map (fun v => 2 * v + 5)%Z [7; 4; 7]%Z)
  = Xy_to_Xn (mx [[1]; [2]; [3]]%Z) [7; 4; 7]%Z.
Proof.
  apply (@Xy_to_Xn_relabel Z (fun v => 2 * v + 5)%Z).
  intros a b H. lia.
Defined.

(** ** The run of [InstancePairing.transform], step by step *)

Section Steps.
Context {R : Random.source} {A : Type}.

Lemma transform_steps (self : InstancePairing.t) (X : matrix A) (y : list Z)
  (s s1 s2 : Random.state R) (rows_same rows_diff : list nat)
  (sel_same sel_diff : list (nat * nat)) (X0 X1 : list (list A)) :
  nrows X <= length y ->
  same_step self y (nrows X) s = Ok (rows_same, s1) ->
  diff_step self y (nrows X) rows_same s1 = Ok (rows_diff, s2) ->
  take (grid (nrows X)) rows_same = Ok sel_same ->
  take (grid (nrows X)) rows_diff = Ok sel_diff ->
  take (rows X) (map fst (sel_same ++ sel_diff)) = Ok X0 ->
  take (rows X) (map snd (sel_same ++ sel_diff)) = Ok X1 ->
  InstancePairing.transform self X y s
  = Ok ((InstancePairing.Make (InstancePairing._ss_limit self)
           (InstancePairing._ds_limit self) (Some (sel_same ++ sel_diff)),
         (NdArray [length (sel_same ++ sel_diff); ncols X; 2] (stacked X0 X1),
          repeat 1%Z (length sel_same) ++ repeat 0%Z (length sel_diff))),
        s2).
Proof.
  intros Hy E1 E2 T1 T2 EX0 EX1. read_labels Hy.
  rewrite masks_same, masks_diff.
  unfold same_step in E1. rewrite E1.
  unfold diff_step in E2. rewrite E2, T1, T2, EX0, EX1.
  unfold stack2, nrows. cbn [rows ncols].
  rewrite (take_length _ _ EX0), (take_length _ _ EX1), !length_map, !Nat.eqb_refl.
  cbn [andb]. unfold Random.ret.
  rewrite <- (take_length _ _ T1), <- (take_length _ _ T2). reflexivity.
Qed.

End Steps.

Section Concat.
Context {B : Type}.

Lemma nth_error_concat_uniform (w : nat) (ls : list (list B)) (k q : nat)
  (l : list B) :
  Forall (fun r => length r = w) ls ->
  nth_error ls k = Some l -> q < w ->
  nth_error (concat ls) (k * w + q) = nth_error l q.
Proof.
  intros Hw. revert k. induction Hw as [|l0 ls Hl0 _ IH]; intros k Hk Hq.
  - destruct k; discriminate.
  - destruct k as [|k]; simpl in *.
    + injection Hk as ->. apply nth_error_app1. lia.
    + rewrite nth_error_app2 by lia.
      replace (w + k * w + q - length l0) with (k * w + q) by lia.
      now apply IH.
Qed.

Lemma length_concat_uniform (w : nat) (ls : list (list B)) :
  Forall (fun r => length r = w) ls -> length (concat ls) = length ls * w.
Proof.
  induction 1 as [|l0 ls Hl0 _ IH]; [reflexivity|].
  simpl. rewrite length_app, IH. lia.
Qed.

Lemma interleave_length (r0 r1 : list B) :
  length r0 = length r1 ->
  length (concat (zip_with (fun a b => [a; b]) r0 r1)) = length r0 * 2.
Proof.
  intros E. rewrite (length_concat_uniform (w := 2)).
  - now rewrite zip_with_length.
  - apply Forall_forall. intros l Hl. unfold zip_with in Hl.
    apply in_map_iff in Hl. destruct Hl as (ab & <- & _). reflexivity.
Qed.

Lemma interleave_nth (r0 r1 : list B) (c : nat) (a b : B) :
  nth_error r0 c = Some a -> nth_error r1 c = Some b ->
  nth_error (concat (zip_with (fun a b => [a; b]) r0 r1)) (c * 2 + 0) = Some a /\
  nth_error (concat (zip_with (fun a b => [a; b]) r0 r1)) (c * 2 + 1) = Some b.
Proof.
  intros Ha Hb.
  assert (Hu : Forall (fun r => length r = 2) (zip_with (fun a b => [a; b]) r0 r1)).
  { apply Forall_forall. intros l Hl. unfold zip_with in Hl.
    apply in_map_iff in Hl. destruct Hl as (ab & <- & _). reflexivity. }
  pose proof (zip_with_nth (fun a b => [a; b]) _ _ _ Ha Hb) as Hc.
  split.
  - rewrite (nth_error_concat_uniform _ Hu Hc); [reflexivity|lia].
  - rewrite (nth_error_concat_uniform _ Hu Hc); [reflexivity|lia].
Qed.

(** The cells of two stacked lists of rows of width [f]. *)
Lemma stacked_nth (f : nat) (X0 X1 : list (list B)) (k c : nat) (r0 r1 : list B)
  (a b : B) :
  Forall (fun r => length r = f) X0 ->
  Forall (fun r => length r = f) X1 ->
  nth_error X0 k = Some r0 -> nth_error X1 k = Some r1 ->
  nth_error r0 c = Some a -> nth_error r1 c = Some b ->
  nth_error (stacked X0 X1) ((k * f + c) * 2 + 0) = Some a /\
  nth_error (stacked X0 X1) ((k * f + c) * 2 + 1) = Some b.
Proof.
  intros H0 H1 Hk0 Hk1 Ha Hb. unfold stacked.
  assert (Hf0 : length r0 = f).
  { rewrite Forall_forall in H0. apply H0. eapply nth_error_In; eassumption. }
  assert (Hf1 : length r1 = f).
  { rewrite Forall_forall in H1. apply H1. eapply nth_error_In; eassumption. }
  assert (Hc : c < f) by (rewrite <- Hf0; apply nth_error_Some; congruence).
  set (inter := fun r0 r1 : list B => concat (zip_with (fun a b => [a; b]) r0 r1)).
  assert (Hu : Forall (fun r => length r = f * 2) (zip_with inter X0 X1)).
  { apply Forall_forall. intros l Hl. unfold zip_with in Hl.
    apply in_map_iff in Hl. destruct Hl as ([x0 x1] & <- & Hin). cbn [fst snd].
    rewrite Forall_forall in H0, H1.
    pose proof (H0 _ (in_combine_l _ _ _ _ Hin)).
    pose proof (H1 _ (in_combine_r _ _ _ _ Hin)).
    unfold inter. rewrite interleave_length; lia. }
  pose proof (zip_with_nth inter _ _ _ Hk0 Hk1) as Hrow.
  destruct (interleave_nth _ _ _ Ha Hb) as [Ea Eb].
  replace ((k * f + c) * 2 + 0) with (k * (f * 2) + (c * 2 + 0)) by lia.
  replace ((k * f + c) * 2 + 1) with (k * (f * 2) + (c * 2 + 1)) by lia.
  rewrite !(nth_error_concat_uniform _ Hu Hrow) by lia.
  unfold inter. auto.
Qed.

Lemma stacked_length (f : nat) (X0 X1 : list (list B)) :
  Forall (fun r => length r = f) X0 ->
  Forall (fun r => length r = f) X1 ->
  length X0 = length X1 ->
  length (stacked X0 X1) = length X0 * (f * 2).
Proof.
  intros H0 H1 E. unfold stacked.
  set (inter := fun r0 r1 : list B => concat (zip_with (fun a b => [a; b]) r0 r1)).
  rewrite (length_concat_uniform (w := f * 2)).
  - now rewrite zip_with_length.
  - apply Forall_forall. intros l Hl. unfold zip_with in Hl.
    apply in_map_iff in Hl. destruct Hl as ([x0 x1] & <- & Hin). cbn [fst snd].
    rewrite Forall_forall in H0, H1.
    pose proof (H0 _ (in_combine_l _ _ _ _ Hin)).
    pose proof (H1 _ (in_combine_r _ _ _ _ Hin)).
    unfold inter. rewrite interleave_length; lia.
Qed.

End Concat.

Section PairedRuns.
Context {R : Random.source} {A : Type}.

Lemma rows_in_range (y : list Z) (n : nat) (lim1 lim2 : option Z)
  (sel_same sel_diff : list (nat * nat)) (proj : nat * nat -> nat) :
  (forall p, proj p = fst p \/ proj p = snd p) ->
  kept lim1 (same_candidates y n) sel_same ->
  kept lim2 (diff_candidates y n) sel_diff ->
  Forall (fun i => i < n) (map proj (sel_same ++ sel_diff)).
Proof.
  intros Hproj K1 K2. apply Forall_forall. intros i Hi.
  apply in_map_iff in Hi. destruct Hi as (p & <- & Hp).
  assert (Hp' : fst p < snd p /\ snd p < n).
  { apply in_app_or in Hp. destruct Hp as [Hp|Hp].
    - eapply kept_In in Hp; [|exact K1].
      apply (candidates_in_grid y n (fun b => b)) in Hp. tauto.
    - eapply kept_In in Hp; [|exact K2].
      apply (candidates_in_grid y n negb) in Hp. tauto. }
  destruct (Hproj p) as [-> | ->]; lia.
Qed.

(** A run on labels that cover the rows and limits that are not negative,
    with the rows of X it pairs. *)
Lemma paired_run (self : InstancePairing.t) (X : matrix A) (y : list Z)
  (s : Random.state R) :
  nrows X <= length y ->
  limits_ok self ->
  exists T X0 X1 labels s',
    InstancePairing.transform self X y s
    = Ok ((InstancePairing.Make (InstancePairing._ss_limit self)
             (InstancePairing._ds_limit self) (Some T),
           (NdArray [length T; ncols X; 2] (stacked X0 X1), labels)), s') /\
    take (rows X) (map fst T) = Ok X0 /\
    take (rows X) (map snd T) = Ok X1.
Proof.
  intros Hy [Hss Hds].
  destruct (@same_stage R _ (fun p => canonical p && same_source y p) (grid (nrows X))
              (InstancePairing._ss_limit self) s Hss)
    as (rows_same & sel_same & s1 & E1 & T1 & K1).
  set (fdiff := fun p => canonical p && negb (same_source y p)).
  set (dsl := match InstancePairing._ds_limit self with
              | InstancePairing.DsNone =>
                  Z.of_nat (length (where_ (map fdiff (grid (nrows X)))))
              | InstancePairing.DsBalanced => Z.of_nat (length rows_same)
              | InstancePairing.DsInt l => l
              end).
  assert (Hdsl : (0 <= dsl)%Z).
  { unfold dsl. destruct (InstancePairing._ds_limit self); lia. }
  destruct (@sample_stage R _ fdiff (grid (nrows X)) dsl s1 Hdsl)
    as (rows_diff & sel_diff & s2 & E2 & T2 & K2).
  destruct (take_rows_total X (idx := map fst (sel_same ++ sel_diff)))
    as (X0 & EX0 & _).
  { eapply rows_in_range; [intros p; now left|exact K1|exact K2]. }
  destruct (take_rows_total X (idx := map snd (sel_same ++ sel_diff)))
    as (X1 & EX1 & _).
  { eapply rows_in_range; [intros p; now right|exact K1|exact K2]. }
  exists (sel_same ++ sel_diff), X0, X1. eexists _, s2.
  split; [|split; assumption].
  eapply transform_steps; eassumption.
Qed.

Lemma taken_rows_width (X : matrix A) (idx : list nat) (X0 : list (list A)) :
  rectangular X -> take (rows X) idx = Ok X0 ->
  Forall (fun r => length r = ncols X) X0.
Proof.
  intros Hrect E. apply Forall_forall. intros r Hr.
  destruct (take_In _ _ _ E Hr) as (i & _ & Hi).
  unfold rectangular in Hrect. rewrite Forall_forall in Hrect.
  apply Hrect. eapply nth_error_In. exact Hi.
Qed.

(** The cells of the paired array, read through the pairing table. *)
Lemma paired_cells (X : matrix A) (T : list (nat * nat)) (X0 X1 : list (list A))
  (k i j c : nat) :
  rectangular X ->
  take (rows X) (map fst T) = Ok X0 ->
  take (rows X) (map snd T) = Ok X1 ->
  nth_error T k = Some (i, j) -> c < ncols X ->
  exists a b,
    cell X i c = Some a /\ cell X j c = Some b /\
    cell3 (NdArray [length T; ncols X; 2] (stacked X0 X1)) k c 0 = Some a /\
    cell3 (NdArray [length T; ncols X; 2] (stacked X0 X1)) k c 1 = Some b.
Proof.
  intros Hrect E0 E1 Hk Hc.
  assert (Hklt : k < length T) by (apply nth_error_Some; congruence).
  pose proof (taken_rows_width _ Hrect E0) as W0.
  pose proof (taken_rows_width _ Hrect E1) as W1.
  assert (Hi : nth_error (map fst T) k = Some i) by now rewrite nth_error_map, Hk.
  assert (Hj : nth_error (map snd T) k = Some j) by now rewrite nth_error_map, Hk.
  destruct (take_nth _ _ _ E0 Hi) as [Er0 Hilt].
  destruct (take_nth _ _ _ E1 Hj) as [Er1 Hjlt].
  destruct (nth_error (rows X) i) as [r0|] eqn:Hr0.
  2:{ apply nth_error_None in Hr0. lia. }
  destruct (nth_error (rows X) j) as [r1|] eqn:Hr1.
  2:{ apply nth_error_None in Hr1. lia. }
  assert (L0 : length r0 = ncols X).
  { rewrite Forall_forall in W0. apply W0. eapply nth_error_In. exact Er0. }
  assert (L1 : length r1 = ncols X).
  { rewrite Forall_forall in W1. apply W1. eapply nth_error_In. exact Er1. }
  destruct (nth_error r0 c) as [a|] eqn:Ha.
  2:{ apply nth_error_None in Ha. lia. }
  destruct (nth_error r1 c) as [b|] eqn:Hb.
  2:{ apply nth_error_None in Hb. lia. }
  exists a, b. unfold cell. rewrite Hr0, Hr1.
  split; [exact Ha|]. split; [exact Hb|].
  unfold cell3. cbn [shape data].
  destruct (Nat.ltb_spec k (length T)); [|lia].
  destruct (Nat.ltb_spec c (ncols X)); [|lia]. cbn [andb Nat.ltb Nat.leb].
  eapply stacked_nth; eassumption.
Qed.

Lemma paired_well_shaped (X : matrix A) (T : list (nat * nat))
  (X0 X1 : list (list A)) :
  rectangular X ->
  take (rows X) (map fst T) = Ok X0 ->
  take (rows X) (map snd T) = Ok X1 ->
  well_shaped (NdArray [length T; ncols X; 2] (stacked X0 X1)).
Proof.
  intros Hrect E0 E1. unfold well_shaped. cbn [shape data size_of fold_right].
  pose proof (take_length _ _ E0) as L0. pose proof (take_length _ _ E1) as L1.
  rewrite length_map in L0, L1.
  rewrite (stacked_length (f := ncols X)).
  - rewrite L0. lia.
  - now apply taken_rows_width with (idx := map fst T).
  - now apply taken_rows_width with (idx := map snd T).
  - congruence.
Qed.

End PairedRuns.

(** X7: on a rectangular X, labels that cover its rows and limits that are
    not negative, the array [transform] returns is a full array of shape
    (m, f, 2), m the number of rows of the pairing table and f the number of
    columns of X, and for the table row k = (i, j) its cells (k, c, 0) and
    (k, c, 1) are the cells (i, c) and (j, c) of X. *)
Theorem paired_tensor_cells (R : Random.source) (A : Type)
  (self : InstancePairing.t) (X : matrix A) (y : list Z) (s : Random.state R) :
  rectangular X ->
  nrows X <= length y ->
  limits_ok self ->
  exists out s',
    InstancePairing.transform self X y s = Ok (out, s') /\
    shape (paired_of out) = [length (table_of out); ncols X; 2] /\
    well_shaped (paired_of out) /\
    forall k i j c,
      nth_error (table_of out) k = Some (i, j) -> c < ncols X ->
      exists a b,
        cell X i c = Some a /\ cell X j c = Some b /\
        cell3 (paired_of out) k c 0 = Some a /\
        cell3 (paired_of out) k c 1 = Some b.
Proof.
  intros Hrect Hy Hl.
  destruct (@paired_run R A self X y s Hy Hl)
    as (T & X0 & X1 & labels & s' & E & E0 & E1).
  eexists _, s'. split; [exact E|].
  unfold paired_of, table_of. cbn [fst snd InstancePairing.pairing].
  split; [reflexivity|].
  split; [now apply paired_well_shaped|].
  intros k i j c Hk Hc. now apply paired_cells.
Qed.

Lemma paired_tensor_cells_witness :
  exists out s',
    InstancePairing.transform (R := Random.reversing_source)
      (InstancePairing.init (Some 1%Z) (InstancePairing.DsInt 1%Z))
      (mx [[1; 2]; [3; 4]; [10; 20]]%Z) [0; 0; 1]%Z tt = Ok (out, s') /\
    well_shaped (paired_of out).
Proof.
  destruct (@paired_tensor_cells Random.reversing_source Z
              (InstancePairing.init (Some 1%Z) (InstancePairing.DsInt 1%Z))
              (mx [[1; 2]; [3; 4]; [10; 20]]%Z) [0; 0; 1]%Z tt)
    as (out & s' & E & _ & Hw & _).
  - repeat constructor.
  - vm_compute. lia.
  - vm_compute. split; discriminate.
  - exists out, s'. auto.
Defined.

Section Pipeline.
Context {A : Type} `{Dtype A}.

(** The reducer on a full array of pairs, cell by cell. *)
Lemma abs_diff_cells (X : ndarray A) (m f : nat) :
  shape X = [m; f; 2] -> well_shaped X ->
  exists Y,
    AbsDiffTransformer.transform X = Ok Y /\
    shape Y = [m; f] /\
    forall i j a b,
      cell3 X i j 0 = Some a -> cell3 X i j 1 = Some b ->
      cell2 Y i j = Some (dabs (dsub a b)).
Proof.
  intros Hs Hw.
  destruct (slice_last_pairs (c := 0) Hs Hw) as (c0 & E0 & L0 & N0); [lia|].
  destruct (slice_last_pairs (c := 1) Hs Hw) as (c1 & E1 & L1 & N1); [lia|].
  unfold AbsDiffTransformer.transform. rewrite Hs. simpl.
  rewrite E0, E1. simpl.
  eexists. split; [reflexivity|]. simpl. split; [reflexivity|].
  intros i j a b Ha Hb. unfold cell3 in Ha, Hb. unfold cell2.
  rewrite Hs in Ha, Hb. cbn [shape data].
  destruct ((i <? m) && (j <? f)) eqn:Hij; [|discriminate Ha].
  cbn [andb Nat.ltb Nat.leb] in Ha, Hb.
  apply andb_prop in Hij. destruct Hij as [Hi Hj].
  apply Nat.ltb_lt in Hi. apply Nat.ltb_lt in Hj.
  assert (Hk : i * f + j < m * f) by nia.
  rewrite nth_error_map.
  rewrite (@zip_with_nth _ _ _ dsub c0 c1 (i * f + j) a b); [reflexivity| |].
  - now rewrite N0.
  - now rewrite N1.
Qed.

(** The reducer on what the pairing engine returns, whatever the element
    type. *)
Lemma paired_reduced_cells (R : Random.source) (self : InstancePairing.t)
  (X : matrix A) (y : list Z) (s : Random.state R) :
  rectangular X ->
  nrows X <= length y ->
  limits_ok self ->
  exists out s' Y,
    InstancePairing.transform self X y s = Ok (out, s') /\
    AbsDiffTransformer.transform (paired_of out) = Ok Y /\
    shape Y = [length (table_of out); ncols X] /\
    forall k i j c,
      nth_error (table_of out) k = Some (i, j) -> c < ncols X ->
      exists a b,
        cell X i c = Some a /\ cell X j c = Some b /\
        cell2 Y k c = Some (dabs (dsub a b)).
Proof.
  intros Hrect Hy Hl.
  destruct (@paired_run R A self X y s Hy Hl)
    as (T & X0 & X1 & labels & s' & E & E0 & E1).
  destruct (@abs_diff_cells (NdArray [length T; ncols X; 2] (stacked X0 X1))
              (length T) (ncols X) eq_refl)
    as (Y & EY & HsY & Hcells).
  { now apply paired_well_shaped. }
  eexists _, s', Y. split; [exact E|].
  unfold paired_of, table_of. cbn [fst snd InstancePairing.pairing].
  split; [exact EY|]. split; [exact HsY|].
  intros k i j c Hk Hc.
  destruct (@paired_cells A X T X0 X1 k i j c Hrect E0 E1 Hk Hc)
    as (a & b & Ha & Hb & Ca & Cb).
  exists a, b. split; [exact Ha|]. split; [exact Hb|].
  now apply Hcells.
Qed.

End Pipeline.

(** X8: the reducer accepts what the pairing engine returns. On a
    rectangular X, labels that cover its rows and limits that are not
    negative, [AbsDiffTransformer.transform] applied to the paired array
    returns an array of shape (m, f) whose cell (k, c), for the table row
    k = (i, j), is the absolute difference of the cells a = X[i, c] and
    b = X[j, c] computed in the element type: on [int64] the wrapped
    absolute value of the wrapped difference, which is the number |a - b|
    exactly when |a - b| is at most 2^63 - 1, and on doubles the IEEE 754
    absolute value of the correctly rounded difference. *)
Theorem paired_abs_diff_cells (R : Random.source) (self : InstancePairing.t)
  (y : list Z) (s : Random.state R) :
  limits_ok self ->
  (forall X : matrix Z,
      rectangular X -> nrows X <= length y ->
      exists out s' Y,
        InstancePairing.transform self X y s = Ok (out, s') /\
        @AbsDiffTransformer.transform Z int64 (paired_of out) = Ok Y /\
        shape Y = [length (table_of out); ncols X] /\
        forall k i j c,
          nth_error (table_of out) k = Some (i, j) -> c < ncols X ->
          exists a b,
            cell X i c = Some a /\ cell X j c = Some b /\
            cell2 Y k c = Some (wrap64 (Z.abs (wrap64 (a - b)))) /\
            (cell2 Y k c = Some (Z.abs (a - b))
             <-> (Z.abs (a - b) <= int64_max)%Z)) /\
  (forall X : matrix PrimFloat.float,
      rectangular X -> nrows X <= length y ->
      exists out s' Y,
        InstancePairing.transform self X y s = Ok (out, s') /\
        @AbsDiffTransformer.transform PrimFloat.float float64 (paired_of out)
        = Ok Y /\
        shape Y = [length (table_of out); ncols X] /\
        forall k i j c,
          nth_error (table_of out) k = Some (i, j) -> c < ncols X ->
          exists a b v,
            cell X i c = Some a /\ cell X j c = Some b /\
            cell2 Y k c = Some v /\
            v = PrimFloat.abs (PrimFloat.sub a b) /\
            FloatOps.Prim2SF v
            = SpecFloat.SFabs
                (FloatAxioms.SF64sub (FloatOps.Prim2SF a) (FloatOps.Prim2SF b))).
Proof.
  intros Hl. split.
  - intros X Hrect Hy.
    destruct (@paired_reduced_cells Z int64 R self X y s Hrect Hy Hl)
      as (out & s' & Y & E & EY & HsY & Hcells).
    exists out, s', Y. split; [exact E|]. split; [exact EY|]. split; [exact HsY|].
    intros k i j c Hk Hc. destruct (Hcells k i j c Hk Hc) as (a & b & Ha & Hb & Hv).
    exists a, b. split; [exact Ha|]. split; [exact Hb|]. split; [exact Hv|].
    rewrite Hv, <- int64_abs_diff_exact. split; congruence.
  - intros X Hrect Hy.
    destruct (@paired_reduced_cells _ float64 R self X y s Hrect Hy Hl)
      as (out & s' & Y & E & EY & HsY & Hcells).
    exists out, s', Y. split; [exact E|]. split; [exact EY|]. split; [exact HsY|].
    intros k i j c Hk Hc. destruct (Hcells k i j c Hk Hc) as (a & b & Ha & Hb & Hv).
    exists a, b, (dabs (dsub a b)).
    split; [exact Ha|]. split; [exact Hb|]. split; [exact Hv|].
    split; [reflexivity|]. apply float64_abs_diff_ieee.
Qed.

Lemma paired_abs_diff_cells_witness :
  exists out s' Y,
    InstancePairing.transform (R := Random.identity_source)
      (InstancePairing.init None InstancePairing.DsBalanced)
      (mx [[1; 2]; [3; 4]; [10; 20]]%Z) [0; 0; 1]%Z tt = Ok (out, s') /\
    @AbsDiffTransformer.transform Z int64 (paired_of out) = Ok Y /\
    shape Y = [length (table_of out); 2].
Proof.
  destruct (@paired_abs_diff_cells Random.identity_source
              (InstancePairing.init None InstancePairing.DsBalanced)
              [0; 0; 1]%Z tt) as [Hint _].
  - vm_compute. split; exact I.
  - destruct (Hint (mx [[1; 2]; [3; 4]; [10; 20]]%Z))
      as (out & s' & Y & E & EY & HsY & _).
    + repeat constructor.
    + vm_compute. lia.
    + exists out, s', Y. auto.
Defined.

(** X9: the limits are enforced and nothing more is dropped. On labels that
    cover the rows, a same-source limit l leaves min(l, number of
    same-source candidates) pairs labelled 1 and an integer
    different-source limit l leaves min(l, number of different-source
    candidates) pairs labelled 0; an unset limit leaves all candidates. *)
Theorem limits_enforced (R : Random.source) (A : Type)
  (self : InstancePairing.t) (X : matrix A) (y : list Z) (s : Random.state R) :
  nrows X <= length y ->
  limits_ok self ->
  exists out s',
    InstancePairing.transform self X y s = Ok (out, s') /\
    match InstancePairing._ss_limit self with
    | Some l =>
        Z.of_nat (count_same out)
        = Z.min l (Z.of_nat (length (same_candidates y (nrows X))))
    | None => count_same out = length (same_candidates y (nrows X))
    end /\
    match InstancePairing._ds_limit self with
    | InstancePairing.DsInt l =>
        Z.of_nat (count_diff out)
        = Z.min l (Z.of_nat (length (diff_candidates y (nrows X))))
    | InstancePairing.DsNone =>
        count_diff out = length (diff_candidates y (nrows X))
    | InstancePairing.DsBalanced => True
    end.
Proof.
  intros Hy Hl.
  destruct (@transform_facts R A self X y s Hy Hl)
    as (out & s' & sel_same & sel_diff & E & _ & _ & Hlab & K1 & K2).
  exists out, s'. split; [exact E|].
  unfold count_same, count_diff. rewrite Hlab.
  destruct (count_labels (length sel_same) (length sel_diff)) as [-> ->].
  unfold kept, effective_ds_limit in *. split.
  - destruct (InstancePairing._ss_limit self) as [l|]; [|now subst].
    destruct (Z.ltb_spec l (Z.of_nat (length (same_candidates y (nrows X)))))
      as [Hlt|Hge].
    + destruct K1 as [_ K1]. lia.
    + subst sel_same. lia.
  - destruct (InstancePairing._ds_limit self) as [| |l]; [now subst|exact I|].
    destruct (Z.ltb_spec l (Z.of_nat (length (diff_candidates y (nrows X)))))
      as [Hlt|Hge].
    + destruct K2 as [_ K2]. lia.
    + subst sel_diff. lia.
Qed.

Lemma limits_enforced_witness :
  exists out s',
    InstancePairing.transform (R := Random.reversing_source)
      (InstancePairing.init (Some 2%Z) (InstancePairing.DsInt 3%Z))
      (mx [[1]; [2]; [3]; [4]; [5]]%Z) [0; 0; 0; 1; 1]%Z tt = Ok (out, s') /\
    Z.of_nat (count_same out) = 2%Z /\ Z.of_nat (count_diff out) = 3%Z.
Proof.
  destruct (@limits_enforced Random.reversing_source Z
              (InstancePairing.init (Some 2%Z) (InstancePairing.DsInt 3%Z))
              (mx [[1]; [2]; [3]; [4]; [5]]%Z) [0; 0; 0; 1; 1]%Z tt)
    as (out & s' & E & Hs & Hd).
  - vm_compute. lia.
  - vm_compute. split; discriminate.
  - exists out, s'. split; [exact E|]. split; [exact Hs|exact Hd].
Defined.

Section NoSampling.
Context {R : Random.source} {A : Type}.

Lemma candidates_rows_total (X : matrix A) (y : list Z) (proj : nat * nat -> nat) :
  (forall p, proj p = fst p \/ proj p = snd p) ->
  exists r,
    take (rows X)
         (map proj (same_candidates y (nrows X) ++ diff_candidates y (nrows X)))
    = Ok r.
Proof.
  intros Hproj.
  destruct (take_rows_total X
              (idx := map proj (same_candidates y (nrows X)
                                ++ diff_candidates y (nrows X))))
    as (r & Er & _); [|eauto].
  apply rows_in_range with (y := y) (lim1 := None) (lim2 := None);
    [exact Hproj|reflexivity|reflexivity].
Qed.

End NoSampling.

(** X10: when no limit is exceeded by the candidates, [transform] does not
    touch the random generator and its result does not depend on it: the
    state comes back unchanged, the table is all same-source candidates
    followed by all different-source candidates, both in the order of the
    index grid (ascending i, then ascending j). *)
Theorem transform_without_sampling (R : Random.source) (A : Type)
  (self : InstancePairing.t) (X : matrix A) (y : list Z) (s : Random.state R) :
  nrows X <= length y ->
  within_limits self y (nrows X) ->
  exists X',
    InstancePairing.transform self X y s
    = Ok ((InstancePairing.Make (InstancePairing._ss_limit self)
             (InstancePairing._ds_limit self)
             (Some (same_candidates y (nrows X) ++ diff_candidates y (nrows X))),
           (X',
            repeat 1%Z (length (same_candidates y (nrows X)))
            ++ repeat 0%Z (length (diff_candidates y (nrows X))))),
          s).
Proof.
  intros Hy [Hss Hds].
  destruct (candidates_rows_total X y fst) as [X0 E0]; [now left|].
  destruct (candidates_rows_total X y snd) as [X1 E1]; [now right|].
  eexists.
  apply transform_steps
    with (s1 := s)
         (rows_same := where_ (map (fun p => canonical p && same_source y p)
                                   (grid (nrows X))))
         (rows_diff := where_ (map (fun p => canonical p && negb (same_source y p))
                                   (grid (nrows X))))
         (X0 := X0) (X1 := X1).
  - exact Hy.
  - unfold same_step. destruct (InstancePairing._ss_limit self) as [l|]; [|reflexivity].
    rewrite where_length. fold (same_candidates y (nrows X)).
    destruct (Z.ltb_spec l (Z.of_nat (length (same_candidates y (nrows X)))));
      [lia|reflexivity].
  - unfold diff_step. rewrite !where_length.
    fold (same_candidates y (nrows X)). fold (diff_candidates y (nrows X)).
    destruct (InstancePairing._ds_limit self) as [| |l].
    + now rewrite Z.ltb_irrefl.
    + destruct (Z.ltb_spec (Z.of_nat (length (same_candidates y (nrows X))))
                  (Z.of_nat (length (diff_candidates y (nrows X)))));
        [lia|reflexivity].
    + destruct (Z.ltb_spec l (Z.of_nat (length (diff_candidates y (nrows X)))));
        [lia|reflexivity].
  - apply take_where.
  - apply take_where.
  - exact E0.
  - exact E1.
Qed.

Lemma transform_without_sampling_witness :
  exists X',
    InstancePairing.transform (R := Random.reversing_source)
      (InstancePairing.init (Some 5%Z) InstancePairing.DsBalanced)
      (mx [[1]; [2]; [3]; [4]]%Z) [0; 0; 0; 1]%Z tt
    = Ok ((InstancePairing.Make (Some 5%Z) InstancePairing.DsBalanced
             (Some [(0, 1); (0, 2); (1, 2); (0, 3); (1, 3); (2, 3)]),
           (X', [1; 1; 1; 0; 0; 0]%Z)), tt).
Proof.
  destruct (@transform_without_sampling Random.reversing_source Z
              (InstancePairing.init (Some 5%Z) InstancePairing.DsBalanced)
              (mx [[1]; [2]; [3]; [4]]%Z) [0; 0; 0; 1]%Z tt) as [X' E].
  - vm_compute. lia.
  - vm_compute. split; [discriminate|].
    vm_compute. lia.
  - exists X'. exact E.
Defined.

(** X11: [transform] does not check that y has one label per row. With
    fewer labels than rows it raises IndexError, whatever the limits; with
    more, the labels beyond the rows of X are ignored. *)
Theorem transform_label_count (R : Random.source) (A : Type)
  (self : InstancePairing.t) (X : matrix A) (y : list Z) (s : Random.state R) :
  (length y < nrows X ->
   InstancePairing.transform self X y s = Raise IndexError) /\
  (nrows X <= length y ->
   InstancePairing.transform self X y s
   = InstancePairing.transform self X (firstn (nrows X) y) s).
Proof.
  split; [apply transform_short_labels|].
  intros Hy.
  assert (Hy' : nrows X <= length (firstn (nrows X) y))
    by (rewrite length_firstn; lia).
  assert (Hlab : forall proj : nat * nat -> nat,
             (forall p, In p (grid (nrows X)) -> proj p < nrows X) ->
             take (firstn (nrows X) y) (map proj (grid (nrows X)))
             = take y (map proj (grid (nrows X)))).
  { intros proj Hproj. rewrite !take_labels by assumption. f_equal.
    apply map_ext_in. intros p Hp. unfold label_at.
    specialize (Hproj p Hp).
    rewrite <- (firstn_skipn (nrows X) y) at 2.
    rewrite app_nth1 by (rewrite length_firstn; lia). reflexivity. }
  unfold InstancePairing.transform, Random.bind, Random.lift.
  rewrite all_pairs_grid.
  rewrite !Hlab by (intros p Hp; now apply grid_In in Hp). reflexivity.
Qed.

Lemma transform_label_count_witness :
  InstancePairing.transform (R := Random.identity_source)
    (InstancePairing.init None InstancePairing.DsNone)
    (mx [[1]; [2]; [3]]%Z) [0; 1]%Z tt = Raise IndexError /\
  InstancePairing.transform (R := Random.identity_source)
    (InstancePairing.init None InstancePairing.DsNone)
    (mx [[1]; [2]]%Z) [0; 1; 1; 0]%Z tt
  = InstancePairing.transform (R := Random.identity_source)
      (InstancePairing.init None InstancePairing.DsNone)
      (mx [[1]; [2]]%Z) [0; 1]%Z tt.
Proof.
  split.
  - apply (proj1 (@transform_label_count Random.identity_source Z
                    (InstancePairing.init None InstancePairing.DsNone)
                    (mx [[1]; [2]; [3]]%Z) [0; 1]%Z tt)).
    vm_compute. lia.
  - apply (proj2 (@transform_label_count Random.identity_source Z
                    (InstancePairing.init None InstancePairing.DsNone)
                    (mx [[1]; [2]]%Z) [0; 1; 1; 0]%Z tt)).
    vm_compute. lia.
Defined.

(** ** Columns and transposition *)

Section Columns.
Context {B : Type}.

Lemma column_nth (w : nat) (rs : list (list B)) (i j : nat) :
  Forall (fun r => length r = w) rs -> j < w ->
  nth_error (column rs j) i
  = match nth_error rs i with
    | Some r => nth_error r j
    | None => None
    end.
Proof.
  intros Hw Hj. revert i. induction Hw as [|r rs Hr _ IH]; intros i.
  - destruct i; reflexivity.
  - unfold column in *. cbn [flat_map].
    destruct (nth_error r j) as [v|] eqn:Ev.
    2:{ apply nth_error_None in Ev. lia. }
    destruct i as [|i]; [simpl; now rewrite Ev|]. apply IH.
Qed.

Lemma column_length (w : nat) (rs : list (list B)) (j : nat) :
  Forall (fun r => length r = w) rs -> j < w ->
  length (column rs j) = length rs.
Proof.
  intros Hw Hj. induction Hw as [|r rs Hr _ IH]; [reflexivity|].
  unfold column in *. cbn [flat_map].
  destruct (nth_error r j) as [v|] eqn:Ev.
  2:{ apply nth_error_None in Ev. lia. }
  simpl. now rewrite IH.
Qed.

Lemma zip_with_nth_error {C D : Type} (g : B -> C -> D) (l : list B) (l' : list C)
  (k : nat) :
  nth_error (zip_with g l l') k
  = match nth_error l k, nth_error l' k with
    | Some a, Some b => Some (g a b)
    | _, _ => None
    end.
Proof.
  unfold zip_with. revert l l'. induction k as [|k IH]; intros [|a l] [|b l'];
    simpl; try reflexivity.
  - now destruct (nth_error l k).
  - apply IH.
Qed.

Lemma map_seq_nth_error {C : Type} (h : nat -> C) (g : B -> C) (l : list B) :
  (forall i r, nth_error l i = Some r -> h i = g r) ->
  map h (seq 0 (length l)) = map g l.
Proof.
  intros Hh. apply nth_error_ext. intros i.
  rewrite !nth_error_map, nth_error_seq.
  destruct (Nat.ltb_spec i (length l)) as [Hi|Hi].
  - destruct (nth_error l i) as [r|] eqn:Er.
    + simpl. f_equal. now apply Hh.
    + apply nth_error_None in Er. lia.
  - apply nth_error_None in Hi. now rewrite Hi.
Qed.

End Columns.

(** X12: on a rectangular matrix, [VectorNormalizer.transform] returns a
    matrix of the same shape in which every row of X is divided, cell by
    cell, by the sum of that same row. *)
Theorem VectorNormalizer_rows (A : Type) (D : Division A) (X : matrix A) :
  rectangular X ->
  VectorNormalizer.transform X
  = Matrix (ncols X) (map (fun r => map (fun v => ddiv v (dsum r)) r) (rows X)).
Proof.
  intros Hrect. unfold VectorNormalizer.transform, transpose, columns, nrows.
  cbn [rows ncols]. rewrite !length_map, !length_seq. f_equal.
  rewrite map_map.
  set (Q := map (fun j => zip_with ddiv (column (rows X) j) (map dsum (rows X)))
                (seq 0 (ncols X))).
  assert (HQ : Forall (fun q => length q = length (rows X)) Q).
  { apply Forall_forall. intros q Hq. unfold Q in Hq. apply in_map_iff in Hq.
    destruct Hq as (j & <- & Hj). apply in_seq in Hj.
    rewrite zip_with_length; rewrite (column_length Hrect) by lia;
      [reflexivity|now rewrite length_map]. }
  apply map_seq_nth_error. intros i r Hi.
  assert (Hilt : i < length (rows X)) by (apply nth_error_Some; congruence).
  assert (Hr : length r = ncols X).
  { unfold rectangular in Hrect. rewrite Forall_forall in Hrect.
    apply Hrect. eapply nth_error_In. exact Hi. }
  apply nth_error_ext. intros j.
  rewrite (column_nth _ HQ Hilt). unfold Q.
  rewrite !nth_error_map, nth_error_seq.
  destruct (Nat.ltb_spec j (ncols X)) as [Hj|Hj].
  - cbn [option_map]. rewrite zip_with_nth_error.
    rewrite (column_nth _ Hrect Hj), Hi, nth_error_map, Hi. cbn [option_map].
    destruct (nth_error r j); reflexivity.
  - cbn [option_map].
    assert (E : nth_error r j = None) by (apply nth_error_None; lia).
    now rewrite E.
Qed.

Lemma VectorNormalizer_rows_witness :
  VectorNormalizer.transform (Matrix 3 [[1; 1; 2]]%float)
  = Matrix 3 [[0.25; 0.25; 0.5]]%float.
Proof.
  rewrite (@VectorNormalizer_rows _ float64_division (Matrix 3 [[1; 1; 2]]%float)).
  - reflexivity.
  - repeat constructor.
Defined.

(** ** Boolean masks *)

Section MaskFacts.
Context {B : Type}.

Lemma select_where_from (l : list B) (mask : list bool) (s : nat) :
  length l = length mask ->
  map (fun k => nth_error l (k - s))
      (map fst (filter snd (combine (seq s (length mask)) mask)))
  = map Some (select l mask).
Proof.
  revert l s. induction mask as [|b mask IH]; intros [|v l] s E; try discriminate;
    [reflexivity|].
  injection E as E. cbn [length seq combine filter snd select].
  assert (Hshift :
    map (fun k => nth_error (v :: l) (k - s))
        (map fst (filter snd (combine (seq (S s) (length mask)) mask)))
    = map Some (select l mask)).
  { rewrite <- (IH l (S s) E). apply map_ext_in. intros k Hk.
    apply in_map_iff in Hk. destruct Hk as ([k' b'] & <- & Hk).
    apply filter_In in Hk. destruct Hk as [Hk _]. apply in_combine_l in Hk.
    apply in_seq in Hk. cbn [fst].
    replace (k' - s) with (S (k' - S s)) by lia. reflexivity. }
  destruct b; cbn [map fst]; [|exact Hshift].
  rewrite Nat.sub_diag. cbn [nth_error]. now rewrite Hshift.
Qed.

(** The cells that a boolean mask selects are the cells at the positions
    where it is true. *)
Lemma select_where (l : list B) (mask : list bool) :
  length l = length mask ->
  map Some (select l mask) = map (nth_error l) (where_ mask).
Proof.
  intros E. unfold where_. rewrite <- (select_where_from l mask 0 E).
  apply map_ext. intros k. now rewrite Nat.sub_0_r.
Qed.

Lemma select_length (l : list B) (mask : list bool) :
  length l = length mask -> length (select l mask) = length (where_ mask).
Proof.
  intros E. apply select_where in E. apply (f_equal (@length _)) in E.
  now rewrite !length_map in E.
Qed.

Lemma select_nth (l : list B) (mask : list bool) (r j : nat) :
  length l = length mask ->
  nth_error (where_ mask) r = Some j ->
  nth_error (select l mask) r = nth_error l j /\ j < length l.
Proof.
  intros E Hr. pose proof (select_where l mask E) as Hs.
  apply (f_equal (fun x => nth_error x r)) in Hs.
  rewrite !nth_error_map, Hr in Hs. cbn [option_map] in Hs.
  destruct (nth_error (select l mask) r) as [v|] eqn:Ev; cbn [option_map] in Hs.
  - injection Hs as Hs. split; [exact Hs|]. apply nth_error_Some. congruence.
  - exfalso. apply nth_error_None in Ev. rewrite (select_length l mask E) in Ev.
    assert (r < length (where_ mask)) by (apply nth_error_Some; congruence). lia.
Qed.

Lemma select_own_mask (p : B -> bool) (l : list B) :
  Forall (fun v => p v = true) (select l (map p l)).
Proof.
  induction l as [|v l IH]; [constructor|]. simpl.
  destruct (p v) eqn:Ev; [constructor; assumption|exact IH].
Qed.

End MaskFacts.

Lemma where_from_In (mask : list bool) (s j : nat) :
  In j (map fst (filter snd (combine (seq s (length mask)) mask)))
  <-> s <= j /\ nth_error mask (j - s) = Some true.
Proof.
  revert s. induction mask as [|b mask IH]; intros s.
  - simpl. split; [contradiction|]. intros [_ H]. destruct (j - s); discriminate.
  - cbn [length seq combine filter snd].
    assert (Hrest :
      In j (map fst (filter snd (combine (seq (S s) (length mask)) mask)))
      <-> s < j /\ nth_error (b :: mask) (j - s) = Some true).
    { rewrite IH. split.
      - intros [Hle H]. split; [lia|].
        replace (j - s) with (S (j - S s)) by lia. exact H.
      - intros [Hlt H]. split; [lia|].
        replace (j - s) with (S (j - S s)) in H by lia. exact H. }
    destruct b; cbn [map fst In]; rewrite Hrest.
    + split.
      * intros [<-|[Hlt H]]; [rewrite Nat.sub_diag; auto|split; [lia|exact H]].
      * intros [Hle H]. destruct (Nat.eq_dec s j) as [E|E]; [now left|right].
        split; [lia|exact H].
    + split.
      * intros [Hlt H]. split; [lia|exact H].
      * intros [Hle H]. destruct (Nat.eq_dec s j) as [<-|E].
        -- rewrite Nat.sub_diag in H. discriminate H.
        -- split; [lia|exact H].
Qed.

(** A position is selected by a mask exactly when the mask is true there. *)
Lemma where_In (mask : list bool) (j : nat) :
  In j (where_ mask) <-> nth_error mask j = Some true.
Proof.
  unfold where_. rewrite where_from_In, Nat.sub_0_r. split; [tauto|].
  intros Hj. split; [lia|exact Hj].
Qed.



(** ** [GaussianCdfTransformer] *)

Section GaussianFit.
Context {A : Type} `{Gaussian A}.

Lemma columns_length (X : matrix A) : length (columns X) = ncols X.
Proof.
  unfold columns. now rewrite length_map, length_seq.
Qed.

Lemma columns_nth (X : matrix A) (j : nat) :
  j < ncols X -> nth_error (columns X) j = Some (column (rows X) j).
Proof.
  intros Hj. unfold columns. rewrite nth_error_map, nth_error_seq.
  destruct (Nat.ltb_spec j (ncols X)); [reflexivity|lia].
Qed.

Lemma fit_valid_features (X : matrix A) (j : nat) :
  nth_error (GaussianCdfTransformer._valid_features (GaussianCdfTransformer.fit X)) j
  = if j <? ncols X then Some (positive (std (column (rows X) j))) else None.
Proof.
  unfold GaussianCdfTransformer.fit. cbn [GaussianCdfTransformer._valid_features].
  rewrite !nth_error_map.
  destruct (Nat.ltb_spec j (ncols X)) as [Hj|Hj].
  - now rewrite (columns_nth X Hj).
  - assert (E : nth_error (columns X) j = None)
      by (apply nth_error_None; rewrite columns_length; lia).
    now rewrite E.
Qed.

End GaussianFit.

(** X13: the state that [fit] leaves. The mask has one entry per column of
    X and keeps exactly the columns whose standard deviation passes the
    test [> 0]; the stored means and standard deviations are those of the
    kept columns, in column order, so both vectors have one entry per kept
    column and every stored standard deviation passes the test. *)
Theorem GaussianCdf_fit_state (A : Type) (G : Gaussian A) (X : matrix A) :
  let st := GaussianCdfTransformer.fit X in
  let kept_columns := where_ (GaussianCdfTransformer._valid_features st) in
  length (GaussianCdfTransformer._valid_features st) = ncols X /\
  (forall j, In j kept_columns
             <-> j < ncols X /\ positive (std (column (rows X) j)) = true) /\
  length (GaussianCdfTransformer._mean st) = length kept_columns /\
  length (GaussianCdfTransformer._std st) = length kept_columns /\
  Forall (fun s => positive s = true) (GaussianCdfTransformer._std st) /\
  forall r j,
    nth_error kept_columns r = Some j ->
    nth_error (GaussianCdfTransformer._mean st) r
    = Some (mean (column (rows X) j)) /\
    nth_error (GaussianCdfTransformer._std st) r
    = Some (std (column (rows X) j)).
Proof.
  intros st kept_columns.
  assert (Lv : length (GaussianCdfTransformer._valid_features st) = ncols X).
  { unfold st, GaussianCdfTransformer.fit.
    cbn [GaussianCdfTransformer._valid_features].
    now rewrite !length_map, columns_length. }
  assert (Lm : length (map mean (columns X))
               = length (GaussianCdfTransformer._valid_features st))
    by now rewrite Lv, length_map, columns_length.
  assert (Ls : length (map std (columns X))
               = length (GaussianCdfTransformer._valid_features st))
    by now rewrite Lv, length_map, columns_length.
  split; [exact Lv|]. split; [|split; [|split; [|split]]].
  - intros j. unfold kept_columns. rewrite where_In. unfold st.
    rewrite fit_valid_features.
    destruct (Nat.ltb_spec j (ncols X)); split.
    + intros E. injection E as E. auto.
    + intros [_ E]. now rewrite E.
    + discriminate.
    + intros [Hj _]. lia.
  - apply (select_length _ _ Lm).
  - apply (select_length _ _ Ls).
  - unfold st, GaussianCdfTransformer.fit. cbn [GaussianCdfTransformer._std].
    apply select_own_mask.
  - intros r j Hr.
    destruct (select_nth _ _ r Lm Hr) as [Em Hj].
    destruct (select_nth _ _ r Ls Hr) as [Es _].
    rewrite length_map, columns_length in Hj.
    unfold st, GaussianCdfTransformer.fit in *.
    cbn [GaussianCdfTransformer._mean GaussianCdfTransformer._std
         GaussianCdfTransformer._valid_features] in *.
    rewrite Em, Es, !nth_error_map, (columns_nth X Hj). auto.
Qed.

Section GaussianTransform.
Context {A : Type} `{Gaussian A}.

Lemma broadcast_width_same (k : nat) : broadcast_width [k; k; k] = Ok k.
Proof.
  unfold broadcast_width. cbn [fold_left Py.bind].
  destruct (Nat.eqb_spec k 1) as [->|Hk]; [reflexivity|].
  apply Nat.eqb_neq in Hk.
  repeat (cbn [Py.bind]; rewrite ?Hk, ?Nat.eqb_refl). reflexivity.
Qed.

Lemma broadcast_same {B : Type} (l : list B) : broadcast (length l) l = l.
Proof.
  unfold broadcast. now rewrite Nat.eqb_refl.
Qed.

Lemma chunks_nth (n f : nat) (cells : list A) (i : nat) :
  i < n ->
  nth_error (chunks n f cells) i = Some (firstn f (skipn (i * f) cells)).
Proof.
  intros Hi. unfold chunks. rewrite nth_error_map, nth_error_seq.
  destruct (Nat.ltb_spec i n); [reflexivity|lia].
Qed.

Lemma chunk_length (n f : nat) (cells : list A) (r : list A) :
  length cells = n * f -> In r (chunks n f cells) -> length r = f.
Proof.
  intros Hlen Hr. unfold chunks in Hr. apply in_map_iff in Hr.
  destruct Hr as (i & <- & Hi). apply in_seq in Hi.
  rewrite length_firstn, length_skipn. nia.
Qed.

Lemma chunk_cell (f : nat) (cells : list A) (i j : nat) :
  j < f ->
  nth_error (firstn f (skipn (i * f) cells)) j = nth_error cells (i * f + j).
Proof.
  intros Hj. rewrite nth_error_firstn, nth_error_skipn.
  destruct (Nat.ltb_spec j f); [reflexivity|lia].
Qed.

(** What [transform] computes on a fitted state whose three vectors go
    together. *)
Lemma transform_on_state (self : GaussianCdfTransformer.t A) (X : ndarray A)
  (n : nat) :
  shape X = [n; length (GaussianCdfTransformer._valid_features self)] ->
  length (GaussianCdfTransformer._mean self)
  = length (where_ (GaussianCdfTransformer._valid_features self)) ->
  length (GaussianCdfTransformer._std self)
  = length (where_ (GaussianCdfTransformer._valid_features self)) ->
  GaussianCdfTransformer.transform self X
  = Ok (NdArray
          [n; length (where_ (GaussianCdfTransformer._valid_features self))]
          (concat
             (map (fun r =>
                     zip_with (fun xm s => norm_cdf (fst xm) (snd xm) s)
                       (combine
                          (broadcast
                             (length (where_ (GaussianCdfTransformer._valid_features self)))
                             (select r (GaussianCdfTransformer._valid_features self)))
                          (GaussianCdfTransformer._mean self))
                       (GaussianCdfTransformer._std self))
                  (chunks n (length (GaussianCdfTransformer._valid_features self))
                          (data X))))).
Proof.
  intros Hs Lm Ls. unfold GaussianCdfTransformer.transform.
  rewrite Hs. cbn [length nth Nat.eqb assert Py.bind].
  rewrite Nat.eqb_refl, Lm, Ls, broadcast_width_same. cbn [Py.bind].
  rewrite map_map.
  assert (Bm : broadcast
                 (length (where_ (GaussianCdfTransformer._valid_features self)))
                 (GaussianCdfTransformer._mean self)
               = GaussianCdfTransformer._mean self)
    by (rewrite <- Lm; apply broadcast_same).
  assert (Bs : broadcast
                 (length (where_ (GaussianCdfTransformer._valid_features self)))
                 (GaussianCdfTransformer._std self)
               = GaussianCdfTransformer._std self)
    by (rewrite <- Ls; apply broadcast_same).
  rewrite Bm, Bs. reflexivity.
Qed.

End GaussianTransform.

Section GaussianFitted.
Context {A : Type} `{Gaussian A}.

Lemma fit_lengths (X0 : matrix A) :
  let st := GaussianCdfTransformer.fit X0 in
  length (GaussianCdfTransformer._valid_features st) = ncols X0 /\
  length (map mean (columns X0))
  = length (GaussianCdfTransformer._valid_features st) /\
  length (map std (columns X0))
  = length (GaussianCdfTransformer._valid_features st).
Proof.
  unfold GaussianCdfTransformer.fit. cbn [GaussianCdfTransformer._valid_features].
  rewrite !length_map, columns_length. auto.
Qed.

Lemma fitted_row (X0 : matrix A) (chunk : list A) (r j : nat) (x : A) :
  let st := GaussianCdfTransformer.fit X0 in
  length chunk = ncols X0 ->
  nth_error (where_ (GaussianCdfTransformer._valid_features st)) r = Some j ->
  nth_error chunk j = Some x ->
  nth_error
    (zip_with (fun xm s => norm_cdf (fst xm) (snd xm) s)
       (combine
          (broadcast (length (where_ (GaussianCdfTransformer._valid_features st)))
                     (select chunk (GaussianCdfTransformer._valid_features st)))
          (GaussianCdfTransformer._mean st))
       (GaussianCdfTransformer._std st)) r
  = Some (norm_cdf x (mean (column (rows X0) j)) (std (column (rows X0) j))).
Proof.
  intros st Hc Hr Hx. destruct (fit_lengths X0) as (Lv & Lm & Ls). fold st in Lv, Lm, Ls.
  assert (Lc : length chunk = length (GaussianCdfTransformer._valid_features st))
    by congruence.
  rewrite <- (select_length _ _ Lc), broadcast_same.
  destruct (select_nth _ _ r Lc Hr) as [Ec Hj].
  destruct (select_nth _ _ r Lm Hr) as [Em _].
  destruct (select_nth _ _ r Ls Hr) as [Es _].
  rewrite Hc in Hj.
  assert (Em' : nth_error (GaussianCdfTransformer._mean st) r
                = Some (mean (column (rows X0) j))).
  { unfold st, GaussianCdfTransformer.fit in *.
    cbn [GaussianCdfTransformer._mean GaussianCdfTransformer._valid_features] in *.
    now rewrite Em, nth_error_map, (columns_nth X0 Hj). }
  assert (Es' : nth_error (GaussianCdfTransformer._std st) r
                = Some (std (column (rows X0) j))).
  { unfold st, GaussianCdfTransformer.fit in *.
    cbn [GaussianCdfTransformer._std GaussianCdfTransformer._valid_features] in *.
    now rewrite Es, nth_error_map, (columns_nth X0 Hj). }
  rewrite Hx in Ec.
  rewrite zip_with_nth_error, (nth_error_combine _ _ _ Ec Em'), Es'. reflexivity.
Qed.

Lemma fitted_row_length (X0 : matrix A) (chunk : list A) :
  let st := GaussianCdfTransformer.fit X0 in
  length chunk = ncols X0 ->
  length
    (zip_with (fun xm s => norm_cdf (fst xm) (snd xm) s)
       (combine
          (broadcast (length (where_ (GaussianCdfTransformer._valid_features st)))
                     (select chunk (GaussianCdfTransformer._valid_features st)))
          (GaussianCdfTransformer._mean st))
       (GaussianCdfTransformer._std st))
  = length (where_ (GaussianCdfTransformer._valid_features st)).
Proof.
  intros st Hc. destruct (fit_lengths X0) as (Lv & Lm & Ls). fold st in Lv, Lm, Ls.
  assert (Lc : length chunk = length (GaussianCdfTransformer._valid_features st))
    by congruence.
  rewrite <- (select_length _ _ Lc), broadcast_same.
  unfold zip_with. rewrite length_map, !length_combine.
  unfold st, GaussianCdfTransformer.fit in *.
  cbn [GaussianCdfTransformer._mean GaussianCdfTransformer._std
       GaussianCdfTransformer._valid_features] in *.
  rewrite (select_length _ _ Lc), (select_length _ _ Lm), (select_length _ _ Ls).
  lia.
Qed.

(** Fit, then transform, cell by cell. *)
Lemma transform_after_fit (X0 : matrix A) (X : ndarray A) (n : nat) :
  shape X = [n; ncols X0] ->
  well_shaped X ->
  let st := GaussianCdfTransformer.fit X0 in
  let kept_columns := where_ (GaussianCdfTransformer._valid_features st) in
  exists Y,
    GaussianCdfTransformer.transform st X = Ok Y /\
    shape Y = [n; length kept_columns] /\
    well_shaped Y /\
    forall i r j,
      i < n -> nth_error kept_columns r = Some j ->
      exists x,
        cell2 X i j = Some x /\
        cell2 Y i r
        = Some (norm_cdf x (mean (column (rows X0) j))
                         (std (column (rows X0) j))).
Proof.
  intros Hs Hw st kept_columns.
  destruct (fit_lengths X0) as (Lv & Lm & Ls). fold st in Lv, Lm, Ls.
  assert (Hlen : length (data X) = n * ncols X0).
  { unfold well_shaped in Hw. rewrite Hs in Hw. simpl in Hw. lia. }
  rewrite (@transform_on_state A _ st X n).
  2:{ now rewrite Lv. }
  2:{ unfold st, GaussianCdfTransformer.fit.
      cbn [GaussianCdfTransformer._mean GaussianCdfTransformer._valid_features].
      apply (select_length _ _ Lm). }
  2:{ unfold st, GaussianCdfTransformer.fit.
      cbn [GaussianCdfTransformer._std GaussianCdfTransformer._valid_features].
      apply (select_length _ _ Ls). }
  fold kept_columns. rewrite Lv.
  set (row := fun r : list A =>
                zip_with (fun xm s => norm_cdf (fst xm) (snd xm) s)
                  (combine
                     (broadcast (length kept_columns)
                        (select r (GaussianCdfTransformer._valid_features st)))
                     (GaussianCdfTransformer._mean st))
                  (GaussianCdfTransformer._std st)).
  assert (Hu : Forall (fun r => length r = length kept_columns)
                      (map row (chunks n (ncols X0) (data X)))).
  { apply Forall_forall. intros l Hl. apply in_map_iff in Hl.
    destruct Hl as (c & <- & Hc). apply (fitted_row_length X0).
    eapply chunk_length; eassumption. }
  eexists. split; [reflexivity|]. cbn [shape data].
  split; [reflexivity|]. split.
  - unfold well_shaped. cbn [shape data size_of fold_right].
    rewrite (length_concat_uniform Hu), length_map.
    unfold chunks. rewrite length_map, length_seq. lia.
  - intros i r j Hi Hr.
    assert (Hrlt : r < length kept_columns) by (apply nth_error_Some; congruence).
    assert (Hj : j < ncols X0).
    { assert (Hin : In j kept_columns) by (eapply nth_error_In; exact Hr).
      apply where_In in Hin. rewrite <- Lv. apply nth_error_Some. congruence. }
    destruct (nth_error (data X) (i * ncols X0 + j)) as [x|] eqn:Ex.
    2:{ apply nth_error_None in Ex. nia. }
    exists x. unfold cell2. rewrite Hs. cbn [shape data].
    destruct (Nat.ltb_spec i n); [|lia].
    destruct (Nat.ltb_spec j (ncols X0)); [|lia].
    destruct (Nat.ltb_spec r (length kept_columns)); [|lia]. cbn [andb].
    split; [exact Ex|].
    rewrite (nth_error_concat_uniform (l := row (firstn (ncols X0)
                                                   (skipn (i * ncols X0) (data X))))
               _ Hu).
    + apply (fitted_row X0).
      * eapply chunk_length; [exact Hlen|].
        eapply nth_error_In. apply chunks_nth. exact Hi.
      * exact Hr.
      * now rewrite chunk_cell.
    + now rewrite nth_error_map, chunks_nth.
    + exact Hrlt.
Qed.


End GaussianFitted.

(** X14: fit, then transform. After [fit] on a population X0, [transform]
    on a full 2-axis array X with the column count of X0 returns a full
    array with the rows of X and one column per kept column of X0; its cell
    (i, r) is [norm.cdf] of the cell (i, j) of X with the population mean
    and standard deviation of column j, where j is the r-th kept column. *)
Theorem GaussianCdf_transform_fitted (A : Type) (G : Gaussian A)
  (X0 : matrix A) (X : ndarray A) (n : nat) :
  shape X = [n; ncols X0] ->
  well_shaped X ->
  let st := GaussianCdfTransformer.fit X0 in
  let kept_columns := where_ (GaussianCdfTransformer._valid_features st) in
  exists Y,
    GaussianCdfTransformer.transform st X = Ok Y /\
    shape Y = [n; length kept_columns] /\
    well_shaped Y /\
    forall i r j,
      i < n -> nth_error kept_columns r = Some j ->
      exists x,
        cell2 X i j = Some x /\
        cell2 Y i r
        = Some (norm_cdf x (mean (column (rows X0) j))
                         (std (column (rows X0) j))).
Proof.
  intros Hs Hw. exact (@transform_after_fit A G X0 X n Hs Hw).
Qed.

Lemma GaussianCdf_transform_fitted_witness :
  exists Y,
    @GaussianCdfTransformer.transform _ (float64_standardised false)
      (@GaussianCdfTransformer.fit _ (float64_standardised false)
         (Matrix 3 [[1; 5; 2]; [3; 5; 4]]%float))
      (NdArray [2; 3] [2; 9; 3; 4; 9; 5]%float) = Ok Y /\
    shape Y = [2; 2].
Proof.
  destruct (@GaussianCdf_transform_fitted _ (float64_standardised false)
              (Matrix 3 [[1; 5; 2]; [3; 5; 4]]%float)
              (NdArray [2; 3] [2; 9; 3; 4; 9; 5]%float) 2)
    as (Y & E & Hs & _).
  - reflexivity.
  - reflexivity.
  - exists Y. split; [exact E|exact Hs].
Defined.

(** X15: when the fitted [transform] returns. After [fit] on X0 it raises
    AssertionError on an array that does not have 2 axes, raises IndexError
    on a 2-axis array whose column count is not that of X0, and returns on
    every 2-axis array with the column count of X0. *)
Theorem GaussianCdf_transform_outcomes (A : Type) (G : Gaussian A)
  (X0 : matrix A) (X : ndarray A) :
  (length (shape X) <> 2 ->
   GaussianCdfTransformer.transform (GaussianCdfTransformer.fit X0) X
   = Raise AssertionError) /\
  (forall n f,
      shape X = [n; f] -> f <> ncols X0 ->
      GaussianCdfTransformer.transform (GaussianCdfTransformer.fit X0) X
      = Raise IndexError) /\
  (forall n,
      shape X = [n; ncols X0] ->
      exists Y,
        GaussianCdfTransformer.transform (GaussianCdfTransformer.fit X0) X
        = Ok Y).
Proof.
  destruct (fit_lengths X0) as (Lv & Lm & Ls). split; [|split].
  - intros Hne. unfold GaussianCdfTransformer.transform.
    destruct (Nat.eqb_spec (length (shape X)) 2); [contradiction|reflexivity].
  - intros n f Hs Hf. unfold GaussianCdfTransformer.transform. rewrite Hs.
    cbn [length nth Nat.eqb assert Py.bind]. rewrite Lv.
    destruct (Nat.eqb_spec (ncols X0) f); [congruence|reflexivity].
  - intros n Hs. eexists. apply transform_on_state with (n := n).
    + rewrite Lv. exact Hs.
    + unfold GaussianCdfTransformer.fit.
      cbn [GaussianCdfTransformer._mean GaussianCdfTransformer._valid_features].
      apply (select_length _ _ Lm).
    + unfold GaussianCdfTransformer.fit.
      cbn [GaussianCdfTransformer._std GaussianCdfTransformer._valid_features].
      apply (select_length _ _ Ls).
Qed.

Lemma GaussianCdf_transform_outcomes_witness :
  @GaussianCdfTransformer.transform _ (float64_standardised false)
    (@GaussianCdfTransformer.fit _ (float64_standardised false)
       (Matrix 3 [[1; 5; 2]; [3; 5; 4]]%float))
    (NdArray [4] [2; 9; 3; 4]%float) = Raise AssertionError /\
  @GaussianCdfTransformer.transform _ (float64_standardised false)
    (@GaussianCdfTransformer.fit _ (float64_standardised false)
       (Matrix 3 [[1; 5; 2]; [3; 5; 4]]%float))
    (NdArray [2; 2] [2; 9; 3; 4]%float) = Raise IndexError.
Proof.
  split.
  - apply (proj1 (@GaussianCdf_transform_outcomes _ (float64_standardised false)
                    (Matrix 3 [[1; 5; 2]; [3; 5; 4]]%float)
                    (NdArray [4] [2; 9; 3; 4]%float))).
    simpl. lia.
  - apply (proj1 (proj2 (@GaussianCdf_transform_outcomes _ (float64_standardised false)
                           (Matrix 3 [[1; 5; 2]; [3; 5; 4]]%float)
                           (NdArray [2; 2] [2; 9; 3; 4]%float))) 2 2).
    + reflexivity.
    + simpl. lia.
Defined.

(** ** The CDF transformer on doubles *)





Example fit_keeps_constant_feature :
  GaussianCdfTransformer._valid_features
    (@GaussianCdfTransformer.fit _ (float64_three_level false)
       (Matrix 2 [[one_tenth; 1]; [one_tenth; 2]; [one_tenth; 3]]%float))
  = [true; true] /\
  GaussianCdfTransformer._valid_features
    (@GaussianCdfTransformer.fit _ (float64_three_level true)
       (Matrix 1 [[one_tenth]; [one_tenth]; [one_tenth]]))
  = [true] /\
  GaussianCdfTransformer._mean
    (@GaussianCdfTransformer.fit _ (float64_three_level true)
       (Matrix 1 [[one_tenth]; [one_tenth]; [one_tenth]]))
  = [0x1.999999999999bp-4%float].
Proof. vm_compute. auto. Qed.

Section FewRows.

Lemma no_candidates (y : list Z) (n : nat) (c : bool -> bool) :
  n <= 1 ->
  filter (fun p => canonical p && c (same_source y p)) (grid n) = [].
Proof.
  intros Hn.
  destruct (filter (fun p => canonical p && c (same_source y p)) (grid n))
    as [|p l] eqn:E; [reflexivity|].
  assert (Hp : In p (filter (fun p => canonical p && c (same_source y p)) (grid n)))
    by (rewrite E; now left).
  apply candidates_in_grid in Hp. lia.
Qed.

Lemma kept_of_nothing {B : Type} (lim : option Z) (sel : list B) :
  kept lim [] sel -> sel = [].
Proof.
  intros K. destruct sel as [|v sel]; [reflexivity|].
  exfalso. apply (@kept_In B lim [] (v :: sel) v K). now left.
Qed.

End FewRows.

(** X16: with fewer than two rows there is nothing to pair. On labels that
    cover the rows and limits that are not negative, [transform] returns
    an empty pairing table, no labels and an empty array of shape
    (0, f, 2). *)
Theorem transform_few_rows (R : Random.source) (A : Type)
  (self : InstancePairing.t) (X : matrix A) (y : list Z) (s : Random.state R) :
  nrows X <= 1 ->
  nrows X <= length y ->
  limits_ok self ->
  exists s',
    InstancePairing.transform self X y s
    = Ok ((InstancePairing.Make (InstancePairing._ss_limit self)
             (InstancePairing._ds_limit self) (Some []),
           (NdArray [0; ncols X; 2] [], [])), s').
Proof.
  intros Hn Hy Hl.
  destruct (@paired_run R A self X y s Hy Hl)
    as (T & X0 & X1 & labels & s' & E & E0 & E1).
  destruct (@transform_facts R A self X y s Hy Hl)
    as (out & s'' & sel_same & sel_diff & E' & _ & Ht & Hlab & K1 & K2).
  unfold same_candidates in K1. unfold diff_candidates in K2.
  rewrite (no_candidates y (fun b => b) Hn) in K1.
  rewrite (no_candidates y negb Hn) in K2.
  apply kept_of_nothing in K1. apply kept_of_nothing in K2. subst sel_same sel_diff.
  rewrite E in E'. injection E' as <- _.
  unfold table_of, labels_of in Ht, Hlab.
  cbn [fst snd InstancePairing.pairing app length repeat] in Ht, Hlab. subst T labels.
  cbn [map] in E0, E1. unfold take in E0, E1. cbn [mapM] in E0, E1.
  injection E0 as <-. injection E1 as <-.
  exists s'. exact E.
Qed.

Lemma transform_few_rows_witness :
  exists s',
    InstancePairing.transform (R := Random.reversing_source)
      (InstancePairing.init (Some 0%Z) InstancePairing.DsBalanced)
      (mx [[1; 2; 3]]%Z) [7]%Z tt
    = Ok ((InstancePairing.Make (Some 0%Z) InstancePairing.DsBalanced (Some []),
           (NdArray [0; 3; 2] [], [])), s').
Proof.
  apply (@transform_few_rows Random.reversing_source Z
           (InstancePairing.init (Some 0%Z) InstancePairing.DsBalanced)
           (mx [[1; 2; 3]]%Z) [7]%Z tt).
  - vm_compute. lia.
  - vm_compute. lia.
  - vm_compute. split; [discriminate|exact I].
Defined.
